(** * twisp/test-runner: fixture discovery and execution ordering

    A shallow embedding of [runner/discovery.go]: the classification of
    fixture files ([parseTestFile]), the construction of the suite map
    ([DiscoverTests]), the ordering of one suite's tests
    ([runWithVisited], [run], [GetOrderedTests]) and the selection of
    entry points ([RunnableSuitePaths]).

    Go strings are byte strings and are modelled as [string]; Go maps
    are [gmap]s.  Go [int] is modelled as [Z]: sequence numbers come from
    [strconv.Atoi], which is given its 64-bit range, and a reference
    count grows by one per directory, far from that range.  What Go
    leaves open (the iteration order of [range] over a map, the
    placement of equal keys by [sort.Slice]) is an interface,
    [GoRuntime], that the ordering theorems quantify over. *)

From Stdlib Require Import ZArith Ascii String.
From Stdlib Require DecimalString DecimalNat.
From stdpp Require Import gmap strings list fin_maps sorting.

Local Open Scope Z_scope.

(** ** The parts of Go's [strings] and [strconv] the source calls *)

Module strings.

(** [strings.HasPrefix s p]. *)
Fixpoint HasPrefix (s p : string) : bool :=
  match p, s with
  | EmptyString, _ => true
  | String _ _, EmptyString => false
  | String c p', String d s' => if Ascii.eqb c d then HasPrefix s' p' else false
  end.

(** [strings.Contains s sub]: [sub] occurs somewhere in [s]. *)
Fixpoint Contains (s sub : string) : bool :=
  HasPrefix s sub ||
  match s with
  | EmptyString => false
  | String _ s' => Contains s' sub
  end.

(** [strings.Split s sep] for a one-byte separator (the source only
    splits at the path separator and at the underscore).  The result
    is never empty: [Split] of the empty string is the one-element list holding it. *)
Fixpoint Split (s : string) (sep : ascii) : list string :=
  match s with
  | EmptyString => [EmptyString]
  | String c s' =>
      if Ascii.eqb c sep then EmptyString :: Split s' sep
      else match Split s' sep with
           | h :: t => String c h :: t
           | [] => [String c EmptyString]
           end
  end.

(** [strings.Join l sep]. *)
Fixpoint Join (l : list string) (sep : ascii) : string :=
  match l with
  | [] => EmptyString
  | [x] => x
  | x :: l' => x +:+ String sep (Join l' sep)
  end.

(** [strings.SplitN s sep 2]: cut at the first separator only. *)
Fixpoint SplitN2 (s : string) (sep : ascii) : list string :=
  match s with
  | EmptyString => [EmptyString]
  | String c s' =>
      if Ascii.eqb c sep then [EmptyString; s']
      else match SplitN2 s' sep with
           | [h] => [String c h]
           | h :: t => String c h :: t
           | [] => [String c EmptyString]
           end
  end.

Definition digit (c : ascii) : option Z :=
  let n := Z.of_N (N_of_ascii c) in
  if (48 <=? n) && (n <=? 57) then Some (n - 48) else None.

Fixpoint digits (s : string) (acc : Z) : option Z :=
  match s with
  | EmptyString => Some acc
  | String c s' =>
      match digit c with
      | Some d => digits s' (10 * acc + d)
      | None => None
      end
  end.

(** [strings.ReplaceAll s old new] for a one-byte [old]. *)
Fixpoint ReplaceAll (s : string) (old : ascii) (new : string) : string :=
  match s with
  | EmptyString => EmptyString
  | String c s' =>
      if Ascii.eqb c old then new +:+ ReplaceAll s' old new
      else String c (ReplaceAll s' old new)
  end.

Definition maxInt : Z := 9223372036854775807.
Definition minInt : Z := -9223372036854775808.

(** [strconv.Atoi]: an optional sign, then at least one decimal digit
    and nothing else; a value outside the 64-bit [int] is an error.
    [None] stands for a non-nil [err]. *)
Definition Atoi (s : string) : option Z :=
  let '(neg, body) :=
    match s with
    | String "+"%char r => (false, r)
    | String "-"%char r => (true, r)
    | _ => (false, s)
    end in
  match body with
  | EmptyString => None
  | _ =>
      match digits body 0 with
      | Some n =>
          let v := if neg then - n else n in
          if (minInt <=? v) && (v <=? maxInt) then Some v else None
      | None => None
      end
  end.

End strings.

(** ** The parts of [path/filepath] the source calls

    The functions are modelled on the paths the walk produces: the root
    is a clean absolute path, every other path is the root followed by
    separator-led entry names. *)

Module filepath.

Definition Separator : ascii := "/"%char.

(** [filepath.Join a b] for a clean [a] and a clean relative [b]. *)
Definition Join (a b : string) : string :=
  if String.eqb b EmptyString then a
  else if String.eqb a "/" then a +:+ b
  else a +:+ String Separator b.

Fixpoint drop (n : nat) (s : string) : string :=
  match n, s with
  | O, _ => s
  | S n', String _ s' => drop n' s'
  | S _, EmptyString => EmptyString
  end.

(** [filepath.Rel base targ] for [targ] equal to or beneath [base]:
    the dot for the base itself, else what follows the base and its
    separator.  (Go answers other targets with dot-dot paths; the
    walk never asks for one.) *)
Definition Rel (base targ : string) : string :=
  if String.eqb base targ then "."
  else
    match drop (String.length base) targ with
    | String c r => if Ascii.eqb c Separator then r else String c r
    | EmptyString => EmptyString
    end.

(** [filepath.Base p] for a clean relative path: its last element. *)
Definition Base (p : string) : string :=
  if String.eqb p EmptyString then "."
  else List.last (strings.Split p Separator) EmptyString.

(** [filepath.Dir p] for a clean relative path: all but the last
    element, the dot when there is only one. *)
Definition Dir (p : string) : string :=
  match List.removelast (strings.Split p Separator) with
  | [] => "."
  | l => strings.Join l Separator
  end.

End filepath.

(** ** Data model *)

(** [Test]: a single test case with its associated files.  The empty
    string is an unset path. *)
Record Test := mkTest {
  Name : string;       (* test name (directory name) *)
  Dir : string;        (* relative directory path *)
  AbsDir : string;     (* absolute directory path *)
  Seq : Z;             (* sequence number, -1 if not sequenced *)
  Request : string;    (* path to request.gql *)
  Response : string;   (* path to response.json *)
  Variables : string;  (* path to variables.json *)
  Transform : string   (* path to transform.jq *)
}.

Global Instance Test_eq_dec : EqDecision Test.
Proof. solve_decision. Defined.

(** [Suite].  [Base] is [None] for Go's nil.  [Children] holds pointers
    to suites in the source; every suite object is created once, for one
    path, so a pointer is modelled by the path of its suite. *)
Record Suite := mkSuite {
  Path : string;
  Base : option Test;
  Tests : gmap string string;
  Children : gmap string string;
  refs : Z
}.

(** [Suites]: the suites indexed by path. *)
Abbreviation Suites := (gmap string Suite).

(** The [IsValid] method of [Test]. *)
Definition IsValid (t : Test) : bool :=
  negb (String.eqb (Request t) EmptyString) && negb (String.eqb (Response t) EmptyString).

(** [getParentPath]. *)
Definition getParentPath (path : string) : string :=
  if String.eqb path EmptyString then EmptyString
  else
    let parts := strings.Split path filepath.Separator in
    if (length parts <=? 1)%nat then EmptyString
    else strings.Join (List.removelast parts) filepath.Separator.

(** [mergeTest dst src]: the non-empty values of [src] are written over
    those of [dst]; the result is [dst], updated. *)
Definition mergeTest (dst src : Test) : Test :=
  let dst1 := if negb (String.eqb (Request src) EmptyString)
              then mkTest (Name dst) (Dir dst) (AbsDir dst) (Seq dst)
                     (Request src) (Response dst) (Variables dst) (Transform dst)
              else dst in
  let dst2 := if negb (String.eqb (Response src) EmptyString)
              then mkTest (Name dst1) (Dir dst1) (AbsDir dst1) (Seq dst1)
                     (Request dst1) (Response src) (Variables dst1) (Transform dst1)
              else dst1 in
  let dst3 := if negb (String.eqb (Variables src) EmptyString)
              then mkTest (Name dst2) (Dir dst2) (AbsDir dst2) (Seq dst2)
                     (Request dst2) (Response dst2) (Variables src) (Transform dst2)
              else dst2 in
  if negb (String.eqb (Transform src) EmptyString)
  then mkTest (Name dst3) (Dir dst3) (AbsDir dst3) (Seq dst3)
         (Request dst3) (Response dst3) (Variables dst3) (Transform src)
  else dst3.

(** The test name [parseTestFile] takes from the directory path: its
    last element, or the one before when the last is empty. *)
Definition testNameOf (dirPath : string) : string :=
  let dirParts := strings.Split dirPath filepath.Separator in
  let dirParts :=
    match dirParts with
    | [] => [EmptyString]
    | [p] => if String.eqb p EmptyString then [EmptyString] else dirParts
    | _ => dirParts
    end in
  let testName := List.last dirParts EmptyString in
  if String.eqb testName EmptyString && (1 <? length dirParts)%nat
  then List.nth (length dirParts - 2) dirParts EmptyString
  else testName.

(** The sequence number [parseTestFile] reads off the test name: what
    stands before the first underscore, when [strconv.Atoi] accepts it;
    -1 otherwise. *)
Definition seqOf (testName : string) : Z :=
  match strings.SplitN2 testName "_"%char with
  | p0 :: _ :: _ =>
      match strings.Atoi p0 with
      | Some n => n
      | None => -1
      end
  | _ => -1
  end.

(** [parseTestFile basePath fullPath info]; [isDir] is [info.IsDir()].
    [None] is the source's [(nil, false)]. *)
Definition parseTestFile (basePath fullPath : string) (isDir : bool) : option Test :=
  if isDir then None
  else if strings.Contains fullPath "/SKIP" then None
  else
    let relPath := filepath.Rel basePath fullPath in
    let fileName := filepath.Base relPath in
    let dirPath := filepath.Dir relPath in
    let dirPath := if String.eqb dirPath "." then EmptyString else dirPath in
    let testName := testNameOf dirPath in
    let seq := seqOf testName in
    let absDir := filepath.Join basePath dirPath in
    if String.eqb fileName "request.gql" then
      Some (mkTest testName dirPath absDir seq fullPath EmptyString EmptyString EmptyString)
    else if String.eqb fileName "response.json" then
      Some (mkTest testName dirPath absDir seq EmptyString fullPath EmptyString EmptyString)
    else if String.eqb fileName "variables.json" then
      Some (mkTest testName dirPath absDir seq EmptyString EmptyString fullPath EmptyString)
    else if String.eqb fileName "transform.jq" then
      Some (mkTest testName dirPath absDir seq EmptyString EmptyString EmptyString fullPath)
    else None.


(** ** What the Go runtime leaves open

    [range] over a map visits the entries in an order that is not
    specified, and [sort.Slice] is not stable: for a comparator that is
    a strict weak ordering it returns some arrangement of its input in
    which no element is less than an earlier one. *)

Definition notAfter {A : Type} (less : A → A → bool) : relation A :=
  λ a b, less b a = false.

Class GoRuntime := {
  range_map : ∀ {A : Type}, gmap string A → list (string * A);
  range_map_perm : ∀ (A : Type) (m : gmap string A),
    range_map m ≡ₚ map_to_list m;
  sort_Slice : ∀ {A : Type}, (A → A → bool) → list A → list A;
  sort_Slice_perm : ∀ (A : Type) (less : A → A → bool) (l : list A),
    sort_Slice less l ≡ₚ l;
  sort_Slice_sorted : ∀ (A : Type) (less : A → A → bool) (l : list A),
    Transitive (notAfter less) → Total (notAfter less) →
    StronglySorted (notAfter less) (sort_Slice less l)
}.

(** ** Ordering one suite's tests *)

(** The comparator handed to [sort.Slice] in [runWithVisited]. *)
Definition childLess (a b : Test) : bool :=
  if (0 <=? Seq a) && (0 <=? Seq b) then Seq a <? Seq b
  else if 0 <=? Seq a then true
  else if 0 <=? Seq b then false
  else String.ltb (Name a) (Name b).

(** One turn of the loop that collects the child tests: the base test of
    the suite at [childPath], unless the suite is missing, has no valid
    base test, or is sequenced beyond a non-negative [maxSeq]. *)
Definition collectChild (s : Suites) (maxSeq : Z) (childPath : string) : option Test :=
  match s !! childPath with
  | None => None
  | Some child =>
      match Base child with
      | None => None
      | Some b =>
          if negb (IsValid b) then None
          else if (0 <=? maxSeq) && (0 <=? Seq b) && (maxSeq <? Seq b) then None
          else Some b
      end
  end.

(** The state [runWithVisited] threads through its calls: the [visited]
    map and what [fn] has been called on so far, in call order. *)
Record RunState := mkRunState {
  visited : gmap string bool;
  emitted : list Test
}.

Definition isVisited (st : RunState) (p : string) : bool :=
  default false (visited st !! p).

(** The base test of a suite as [runWithVisited] runs it: present and
    valid, or nothing. *)
Definition baseTest (suite : Suite) : list Test :=
  match Base suite with
  | Some b => if IsValid b then [b] else []
  | None => []
  end.

Section Ordering.
Context {rt : GoRuntime}.

(** The child tests of [suite], collected and sorted. *)
Definition childTests (s : Suites) (suite : Suite) (maxSeq : Z) : list Test :=
  sort_Slice childLess
    (omap (λ kv, collectChild s maxSeq kv.2) (range_map (Tests suite))).

(** What [runWithVisited] does for [suitePath] once its parent has
    been handled: mark, base test, sorted child tests. *)
Definition runSuite (s : Suites) (suitePath : string) (suite : Suite)
    (maxSeq : Z) (st : RunState) : RunState :=
  mkRunState (<[suitePath := true]> (visited st))
             (emitted st ++ baseTest suite ++ childTests s suite maxSeq).

(** [runWithVisited].  The recursion is on the parent path, which is
    shorter than the path; [fuel] bounds its depth and [None] is
    running out of it. *)
Fixpoint runWithVisited (fuel : nat) (s : Suites) (suitePath : string)
    (maxSeq : Z) (st : RunState) : option RunState :=
  if isVisited st suitePath then Some st
  else
    match s !! suitePath with
    | None => Some st
    | Some suite =>
        let parentPath := getParentPath suitePath in
        let handled :=
          if String.eqb parentPath EmptyString then Some st
          else match fuel with
               | O => None
               | S fuel' => runWithVisited fuel' s parentPath (-1) st
               end in
        match handled with
        | None => None
        | Some st1 => Some (runSuite s suitePath suite maxSeq st1)
        end
    end.

(** [run], with [fn] collecting the tests it is called on. *)
Definition run (s : Suites) (suitePath : string) (maxSeq : Z) : list Test :=
  match runWithVisited (String.length suitePath) s suitePath maxSeq
          (mkRunState ∅ []) with
  | Some st => emitted st
  | None => []
  end.

(** [GetOrderedTests]. *)
Definition GetOrderedTests (s : Suites) (suitePath : string) : list Test :=
  run s suitePath (-1).

(** [RunnableSuitePaths]; [sort.Strings] is the runtime's sort under
    the byte order of strings. *)
Definition RunnableSuitePaths (s : Suites) : list string :=
  sort_Slice String.ltb
    (omap (λ kv : string * Suite,
             if (0 <? refs kv.2) && (size (Tests kv.2) =? 0)%nat
             then None else Some kv.1)
          (range_map s)).

End Ordering.

(** ** Discovery *)

(** A directory tree as [filepath.Walk] reads it: files and directories
    with their names, the entries of a directory in the order the walk
    takes them. *)
#[warnings="-register-all"]
Inductive Entry :=
  | File (name : string)
  | Directory (name : string) (entries : list Entry).

Definition entryName (e : Entry) : string :=
  match e with
  | File n => n
  | Directory n _ => n
  end.

(** The calls [filepath.Walk root fn] makes, in order: the path and
    [info.IsDir()] of every entry, a directory before its contents. *)
Fixpoint walk (path : string) (e : Entry) : list (string * bool) :=
  match e with
  | File _ => [(path, false)]
  | Directory _ es =>
      (path, true) ::
      (fix walkAll (l : list Entry) : list (string * bool) :=
         match l with
         | [] => []
         | c :: l' => walk (filepath.Join path (entryName c)) c ++ walkAll l'
         end) es
  end.

Inductive DiscoverError :=
  | SuiteNotFound (dir : string)
  | ParentNotFound (parentPath path : string).

Definition emptySuite (relPath : string) : Suite :=
  mkSuite relPath None ∅ ∅ 0.

Definition setBase (b : Test) (su : Suite) : Suite :=
  mkSuite (Path su) (Some b) (Tests su) (Children su) (refs su).

Definition incRefs (su : Suite) : Suite :=
  mkSuite (Path su) (Base su) (Tests su) (Children su) (refs su + 1).

Definition addTest (name path : string) (su : Suite) : Suite :=
  mkSuite (Path su) (Base su) (<[name := path]> (Tests su))
          (<[name := path]> (Children su)) (refs su).

(** The function [DiscoverTests] hands to [filepath.Walk], for an entry
    the walk could read.  Suites are shared objects in the source: an
    update of one is written back to the map at the path it was created
    for, and is read from there again. *)
Definition visit (absPath : string) (suites : Suites) (e : string * bool)
    : DiscoverError + Suites :=
  let '(path, isDir) := e in
  let relPath := filepath.Rel absPath path in
  let relPath := if String.eqb relPath "." then EmptyString else relPath in
  if isDir then inr (<[relPath := emptySuite relPath]> suites)
  else
    match parseTestFile absPath path isDir with
    | None => inr suites
    | Some test =>
        match suites !! Dir test with
        | None => inl (SuiteNotFound (Dir test))
        | Some suite =>
            let isNew := match Base suite with None => true | Some _ => false end in
            let base := match Base suite with
                        | None => test
                        | Some b => mergeTest b test
                        end in
            let suites := <[Dir test := setBase base suite]> suites in
            let parentPath := getParentPath (Path suite) in
            if negb (String.eqb (Path suite) EmptyString) then
              match suites !! parentPath with
              | None => inl (ParentNotFound parentPath (Path suite))
              | Some parent =>
                  let parent := if isNew then incRefs parent else parent in
                  if 0 <=? Seq base then
                    let suites :=
                      <[parentPath := addTest (Name test) (Path suite) parent]> suites in
                    if isNew then inr (alter incRefs (Dir test) suites)
                    else inr suites
                  else inr (<[parentPath := parent]> suites)
              end
            else inr suites
        end
    end.

Fixpoint visitAll (absPath : string) (suites : Suites) (es : list (string * bool))
    : DiscoverError + Suites :=
  match es with
  | [] => inr suites
  | e :: es' =>
      match visit absPath suites e with
      | inl err => inl err
      | inr suites' => visitAll absPath suites' es'
      end
  end.

Definition prunable (su : Suite) : bool :=
  match Base su with
  | None => (size (Tests su) =? 0)%nat
  | Some _ => false
  end.

(** [DiscoverTests], from the absolute path of the suite on: the walk,
    then the removal of the suites with neither a base test nor a child
    test. *)
Definition DiscoverTests (absPath : string) (root : Entry) : DiscoverError + Suites :=
  match visitAll absPath ∅ (walk absPath root) with
  | inl err => inl err
  | inr suites => inr (filter (λ kv : string * Suite, prunable kv.2 = false) suites)
  end.

(** ** Runtimes to compute with *)

Global Instance notAfter_dec {A} (less : A → A → bool) : RelDecision (notAfter less).
Proof. intros a b. unfold notAfter. apply _. Defined.

(** [range] in the order of the map's list of entries, a merge sort for
    [sort.Slice]. *)
Global Program Instance sortedRuntime : GoRuntime := {|
  range_map A m := map_to_list m;
  sort_Slice A less l := merge_sort (notAfter less) l
|}.
Next Obligation. done. Qed.
Next Obligation. intros. apply merge_sort_Permutation. Qed.
Next Obligation. intros. by apply StronglySorted_merge_sort. Qed.

(** A second runtime: [range] goes through a map the other way round. *)
Global Program Instance reversedRuntime : GoRuntime | 10 := {|
  range_map A m := reverse (map_to_list m);
  sort_Slice A less l := merge_sort (notAfter less) l
|}.
Next Obligation. intros. apply reverse_Permutation. Qed.
Next Obligation. intros. apply merge_sort_Permutation. Qed.
Next Obligation. intros. by apply StronglySorted_merge_sort. Qed.

(** ** Notions the theorems are stated with *)

(** The suites of a discovery, empty when it fails. *)
Definition discovered (absPath : string) (root : Entry) : Suites :=
  match DiscoverTests absPath root with
  | inr s => s
  | inl _ => ∅
  end.

(** The discovery returns suites, not an error. *)
Definition succeeds (absPath : string) (root : Entry) : bool :=
  match DiscoverTests absPath root with
  | inr _ => true
  | inl _ => false
  end.

(** Where a walk entry named by [segs], from the root down, is found. *)
Definition fullPath (absPath : string) (segs : list string) : string :=
  foldl filepath.Join absPath segs.

(** The key [visit] files a path under. *)
Definition relKey (absPath path : string) : string :=
  let relPath := filepath.Rel absPath path in
  if String.eqb relPath "." then EmptyString else relPath.

(** The name of a directory entry: not empty, not the dot, and without
    a separator. *)
Definition validName (n : string) : Prop :=
  n ≠ EmptyString ∧ n ≠ "." ∧ strings.Contains n "/" = false.

(** A tree whose entries, below the root, have valid names. *)
#[warnings="-register-all"]
Inductive validTree : Entry → Prop :=
  | validFile n : validTree (File n)
  | validDirectory n es :
      Forall (λ c, validName (entryName c)) es →
      Forall validTree es →
      validTree (Directory n es).

(** The file names [parseTestFile] recognises. *)
Definition fixtureNames : list string :=
  ["request.gql"; "response.json"; "variables.json"; "transform.jq"].

(** The base test a directory with both fixtures gets. *)
Definition fixture (absPath name dir : string) (seq : Z) : Test :=
  mkTest name dir (absPath +:+ "/" +:+ dir) seq
    (absPath +:+ "/" +:+ dir +:+ "/request.gql")
    (absPath +:+ "/" +:+ dir +:+ "/response.json")
    EmptyString EmptyString.

(** The path fields of a test. *)
Definition pathFields (b : Test) : list string :=
  [Request b; Response b; Variables b; Transform b].

(** The [k]-th ancestor of a path: [getParentPath], [k] times. *)
Definition ancestorPath (k : nat) (p : string) : string :=
  Nat.iter k getParentPath p.

(** The valid base tests of the children registered with a suite. *)
Definition validChildren (s : Suites) (su : Suite) : list Test :=
  omap (λ kv : string * string, collectChild s (-1) kv.2) (map_to_list (Tests su)).

(** No two different tests of the list are tied under [childLess]:
    sequenced tests differ in their sequence numbers, tests without one
    in their names. *)
Definition untiedb (l : list Test) : bool :=
  forallb (λ a, forallb (λ b, bool_decide (a = b) || childLess a b || childLess b a) l) l.

(** No suite of the map has tied child tests. *)
Definition tieFreeb (s : Suites) : bool :=
  forallb (λ kv : string * Suite, untiedb (validChildren s kv.2)) (map_to_list s).

(** The base test [DiscoverTests] ends with for a suite whose
    recognised files give the fragments [l], in the order of the walk:
    the first fragment, the others merged into it one by one. *)
Definition mergeAll (l : list Test) : option Test :=
  match l with
  | [] => None
  | t :: l' => Some (foldl mergeTest t l')
  end.

(** What [mergeTest] writes for one field. *)
Definition overwrite (dst src : string) : string :=
  if String.eqb src EmptyString then dst else src.

(** Two fragments do not contend for a field: one of the two values is
    empty, or they are equal. *)
Definition agree (x y : string) : Prop :=
  x = EmptyString ∨ y = EmptyString ∨ x = y.

(** Fragments of the same directory that contend for no field. *)
Definition compatible (a b : Test) : Prop :=
  Name a = Name b ∧ Dir a = Dir b ∧ AbsDir a = AbsDir b ∧ Seq a = Seq b ∧
  agree (Request a) (Request b) ∧ agree (Response a) (Response b) ∧
  agree (Variables a) (Variables b) ∧ agree (Transform a) (Transform b).

(** The first of two values that is set. *)
Definition firstNonEmpty (x y : string) : string :=
  if String.eqb x EmptyString then y else x.

(** [t] is the fragment [parseTestFile] gives for a file of the
    directory [segs], the names from the root down to it. *)
Definition fragment (absPath : string) (segs : list string) (t : Test) : Prop :=
  ∃ file,
    validName file ∧
    parseTestFile absPath (fullPath absPath (segs ++ [file])) false = Some t.

(** A test of the directory [segs] whose fields, where they are set,
    name the fixture files of that directory. *)
Definition ownFields (absPath : string) (segs : list string) (t : Test) : Prop :=
  Name t = List.last segs EmptyString ∧
  Dir t = strings.Join segs filepath.Separator ∧
  AbsDir t = filepath.Join absPath (strings.Join segs filepath.Separator) ∧
  Seq t = seqOf (List.last segs EmptyString) ∧
  (Request t = EmptyString ∨
   Request t = fullPath absPath (segs ++ ["request.gql"])) ∧
  (Response t = EmptyString ∨
   Response t = fullPath absPath (segs ++ ["response.json"])) ∧
  (Variables t = EmptyString ∨
   Variables t = fullPath absPath (segs ++ ["variables.json"])) ∧
  (Transform t = EmptyString ∨
   Transform t = fullPath absPath (segs ++ ["transform.jq"])).

(** The base of a path below it: the path itself, but empty for the
    root of the file system, whose name is the separator. *)
Definition slashed (absPath : string) : string :=
  if String.eqb absPath "/" then EmptyString else absPath.

(** [path] is [absPath] or lies beneath it. *)
Definition beneath (absPath path : string) : Prop :=
  path = absPath ∨ ∃ r, path = slashed absPath +:+ String filepath.Separator r.

(** The path fields of a test name nothing under a skipped directory. *)
Definition cleanFields (b : Test) : Prop :=
  strings.Contains (Request b) "/SKIP" = false ∧
  strings.Contains (Response b) "/SKIP" = false ∧
  strings.Contains (Variables b) "/SKIP" = false ∧
  strings.Contains (Transform b) "/SKIP" = false.

(** A relative path with an element that begins with the marker. *)
Definition skipped (k : string) : bool :=
  strings.Contains (String filepath.Separator k) "/SKIP".

(** What holds of the suite filed under [k] all through the walk. *)
Definition good (k : string) (su : Suite) : Prop :=
  Path su = k ∧
  (∀ b, Base su = Some b →
        Dir b = k ∧ Name b = testNameOf k ∧ Seq b = seqOf (testNameOf k) ∧
        cleanFields b) ∧
  (∀ n p, Tests su !! n = Some p →
          n = testNameOf p ∧ 0 ≤ seqOf (testNameOf p) ∧
          p ≠ EmptyString ∧ getParentPath p = k) ∧
  (skipped k = true → Base su = None ∧ Tests su = ∅).

(** ** Directory trees to compute with *)

(** The scenario of the specification: a root with both fixtures, two
    sequenced children with both, a third with a request only, and a
    child without a numeric prefix. *)
Definition scenario : Entry :=
  Directory "suite"
    [ File "request.gql"; File "response.json";
      Directory "001_First" [File "request.gql"; File "response.json"];
      Directory "002_Second" [File "response.json"; File "request.gql"];
      Directory "003_Third" [File "request.gql"];
      Directory "Extra" [File "request.gql"; File "response.json"] ].

Definition scenarioSuites : Suites := discovered "/r" scenario.

(** A tree whose directory [a/b] holds no fixture and no sequenced
    child: the suite of [a/b] is removed after the walk, the suites of
    [a] and of [a/b/c] stay. *)
Definition orphanTree : Entry :=
  Directory "suite"
    [ Directory "a"
        [ File "request.gql"; File "response.json";
          Directory "b"
            [ Directory "c" [File "request.gql"; File "response.json"] ] ] ].

Definition orphanSuites : Suites := discovered "/r" orphanTree.

(** Suites nested three deep, each with both fixtures. *)
Definition nestedTree : Entry :=
  Directory "suite"
    [ File "request.gql"; File "response.json";
      Directory "a"
        [ File "request.gql"; File "response.json";
          Directory "001_b"
            [ File "request.gql"; File "response.json";
              Directory "002_c" [File "request.gql"; File "response.json"] ] ] ].

Definition nestedSuites : Suites := discovered "/r" nestedTree.

(** Two sibling directories with the same sequence number. *)
Definition tieTree : Entry :=
  Directory "suite"
    [ File "request.gql"; File "response.json";
      Directory "001_a" [File "request.gql"; File "response.json"];
      Directory "01_b" [File "request.gql"; File "response.json"] ].

Definition tieSuites : Suites := discovered "/r" tieTree.

(** A tree with a skipped directory that holds fixtures and a sequenced
    child. *)
Definition skipTree : Entry :=
  Directory "suite"
    [ File "request.gql"; File "response.json";
      Directory "001_a" [File "request.gql"; File "response.json"];
      Directory "SKIP_old"
        [ File "request.gql"; File "response.json";
          Directory "001_x" [File "request.gql"; File "response.json"] ] ].

Definition skipSuites : Suites := discovered "/r" skipTree.

(** A root with both fixtures and one directory without a numeric
    prefix. *)
Definition extraTree : Entry :=
  Directory "suite"
    [ File "request.gql"; File "response.json";
      Directory "Extra" [File "request.gql"; File "response.json"] ].

Definition extraSuites : Suites := discovered "/r" extraTree.

(** ** The runner *)

(** [truncate]: newlines become spaces, and a string longer than
    [maxLen] bytes is cut there and marked.  [None] stands for the panic
    of the slice expression [s[:maxLen]] on a negative [maxLen]. *)
Definition truncate (s : string) (maxLen : Z) : option string :=
  let s := strings.ReplaceAll s "010"%char " " in
  if Z.of_nat (String.length s) <=? maxLen then Some s
  else if maxLen <? 0 then None
  else Some (substring 0 (Z.to_nat maxLen) s +:+ "...").

(** What the runner takes from [encoding/json]: decoding to [any],
    encoding back, and decoding the variables to a map, [nilMap] being
    the nil map the variables start as.  The left summand is the error. *)
Class EncodingJSON := {
  Value : Type;
  VariableMap : Type;
  nilMap : VariableMap;
  Unmarshal : string → string + Value;
  Marshal : Value → string + string;
  UnmarshalVariables : string → string + VariableMap;
}.

Module Result.
Record t := mk {
  Test : Test;
  Passed : bool;
  Error : option string;
  Expected : string;
  Actual : string;
}.
End Result.

Module SuiteResult.
Record t := mk {
  SuitePath : string;
  Results : list Result.t;
  Passed : Z;
  Failed : Z;
  Skipped : Z;
}.
End SuiteResult.

Record Options := mkOptions {
  Verbose : bool;
  FailFast : bool;
}.

Section Runner.
Context {json : EncodingJSON}.

(** [jsonEqual]: both sides decode, both values encode, and the
    encodings are the same string. *)
Definition jsonEqual (a b : string) : bool :=
  match Unmarshal a with
  | inl _ => false
  | inr aVal =>
      match Unmarshal b with
      | inl _ => false
      | inr bVal =>
          match Marshal aVal with
          | inl _ => false
          | inr aNorm =>
              match Marshal bVal with
              | inl _ => false
              | inr bNorm => String.eqb aNorm bNorm
              end
          end
      end
  end.

(** The calls [RunTest] makes to the outside: reading a file, sending
    the request to the endpoint, transforming a response.  Each answers
    with an error or with data. *)
Inductive Call :=
  | ReadFile (name : string)
  | Execute (query : string) (variables : VariableMap)
  | TransformJSON (transformPath data : string).

Definition Answer : Type := string + string.

(** A program is a tree of calls: it returns, or makes a call and goes
    on with the answer. *)
Inductive Prog (A : Type) : Type :=
  | Ret (a : A)
  | Do (c : Call) (k : Answer → Prog A).
Arguments Ret {A} a.
Arguments Do {A} c k.

Fixpoint bind {A B : Type} (m : Prog A) (f : A → Prog B) : Prog B :=
  match m with
  | Ret a => f a
  | Do c k => Do c (λ r, bind (k r) f)
  end.

(** Running a program against a handler of the calls, from a state of
    the outside [w]: the final state, the result and the calls made, in
    order. *)
Fixpoint interp {W A : Type} (h : Call → W → W * Answer) (p : Prog A) (w : W)
    : W * A * list Call :=
  match p with
  | Ret a => (w, a, [])
  | Do c k =>
      let r := h c w in
      let r' := interp h (k r.2) r.1 in
      (r'.1.1, r'.1.2, c :: r'.2)
  end.

(** A result with an error: [Passed] is false, [Expected] and [Actual]
    are empty, as in the zero-valued [Result] the source returns early. *)
Definition failed (test : Test) (msg err : string) : Result.t :=
  Result.mk test false (Some (msg +:+ ": " +:+ err)) EmptyString EmptyString.

Definition RunTest (test : Test) : Prog Result.t :=
  Do (ReadFile (Request test)) (λ r,
    match r with
    | inl err => Ret (failed test "failed to read request" err)
    | inr query =>
        let execute (variables : VariableMap) : Prog Result.t :=
          Do (Execute query variables) (λ r,
            match r with
            | inl err => Ret (failed test "failed to execute request" err)
            | inr actualJSON =>
                let readExpected (actualJSON : string) : Prog Result.t :=
                  Do (ReadFile (Response test)) (λ r,
                    match r with
                    | inl err =>
                        Ret (failed test "failed to read expected response" err)
                    | inr expectedJSON =>
                        let compare (expectedJSON : string) : Prog Result.t :=
                          let passed := jsonEqual expectedJSON actualJSON in
                          Ret (Result.mk test passed
                                 (if passed then None else Some "response mismatch")
                                 expectedJSON actualJSON) in
                        if String.eqb (Transform test) EmptyString
                        then compare expectedJSON
                        else
                          Do (TransformJSON (Transform test) expectedJSON) (λ r,
                            match r with
                            | inl err =>
                                Ret (failed test
                                       "failed to transform expected response" err)
                            | inr expectedJSON => compare expectedJSON
                            end)
                    end) in
                if String.eqb (Transform test) EmptyString
                then readExpected actualJSON
                else
                  Do (TransformJSON (Transform test) actualJSON) (λ r,
                    match r with
                    | inl err =>
                        Ret (failed test "failed to transform actual response" err)
                    | inr actualJSON => readExpected actualJSON
                    end)
            end) in
        if String.eqb (Variables test) EmptyString then execute nilMap
        else
          Do (ReadFile (Variables test)) (λ r,
            match r with
            | inl err => Ret (failed test "failed to read variables" err)
            | inr varsData =>
                match UnmarshalVariables varsData with
                | inl err => Ret (failed test "failed to parse variables" err)
                | inr variables => execute variables
                end
            end)
    end).

Context {rt : GoRuntime}.

Definition collectAllTests (suites : Suites) : list Test :=
  GetOrderedTests suites EmptyString.

Definition addResult (r : Result.t) (result : SuiteResult.t) : SuiteResult.t :=
  SuiteResult.mk (SuiteResult.SuitePath result) (SuiteResult.Results result ++ [r])
    (SuiteResult.Passed result) (SuiteResult.Failed result)
    (SuiteResult.Skipped result).

Definition incPassed (result : SuiteResult.t) : SuiteResult.t :=
  SuiteResult.mk (SuiteResult.SuitePath result) (SuiteResult.Results result)
    (SuiteResult.Passed result + 1) (SuiteResult.Failed result)
    (SuiteResult.Skipped result).

Definition incFailed (result : SuiteResult.t) : SuiteResult.t :=
  SuiteResult.mk (SuiteResult.SuitePath result) (SuiteResult.Results result)
    (SuiteResult.Passed result) (SuiteResult.Failed result + 1)
    (SuiteResult.Skipped result).

Definition incSkipped (result : SuiteResult.t) : SuiteResult.t :=
  SuiteResult.mk (SuiteResult.SuitePath result) (SuiteResult.Results result)
    (SuiteResult.Passed result) (SuiteResult.Failed result)
    (SuiteResult.Skipped result + 1).

(** The loop of [RunSuite] over the tests, [result] being the counts and
    results so far.  The printing is left out. *)
Fixpoint runTests (options : Options) (tests : list Test) (result : SuiteResult.t)
    : Prog SuiteResult.t :=
  match tests with
  | [] => Ret result
  | test :: rest =>
      if negb (IsValid test) then runTests options rest (incSkipped result)
      else
        bind (RunTest test) (λ testResult,
          let result := addResult testResult result in
          if Result.Passed testResult
          then runTests options rest (incPassed result)
          else
            let result := incFailed result in
            if FailFast options then Ret result
            else runTests options rest result)
  end.

(** [RunSuite], the directory tree under [absPath] being [root]. *)
Definition RunSuite (options : Options) (suitePath absPath : string) (root : Entry)
    : Prog (DiscoverError + SuiteResult.t) :=
  match DiscoverTests absPath root with
  | inl err => Ret (inl err)
  | inr suites =>
      bind (runTests options (collectAllTests suites)
              (SuiteResult.mk suitePath [] 0 0 0))
           (λ result, Ret (inr result))
  end.

(** A property of the calls made and of the result that holds however
    the calls are answered. *)
Fixpoint always {A : Type} (P : list Call → A → Prop) (p : Prog A) : Prop :=
  match p with
  | Ret a => P [] a
  | Do c k => ∀ r, always (λ calls, P (c :: calls)) (k r)
  end.

(** The steps of [RunTest], in the order of the source. *)
Inductive Step :=
  | Reads (name : string)
  | Executes
  | Transforms (transformPath : string).

Definition stepOf (c : Call) : Step :=
  match c with
  | ReadFile name => Reads name
  | Execute _ _ => Executes
  | TransformJSON transformPath _ => Transforms transformPath
  end.

Definition plan (test : Test) : list Step :=
  let transform := if String.eqb (Transform test) EmptyString then []
                   else [Transforms (Transform test)] in
  [Reads (Request test)] ++
  (if String.eqb (Variables test) EmptyString then [] else [Reads (Variables test)]) ++
  [Executes] ++ transform ++ [Reads (Response test)] ++ transform.

(** What holds of every run of [RunTest]. *)
Definition RunTest_post (test : Test) (calls : list Call) (r : Result.t) : Prop :=
  Result.Test r = test ∧
  (Result.Passed r = true ↔ Result.Error r = None) ∧
  (Result.Passed r = true →
     jsonEqual (Result.Expected r) (Result.Actual r) = true ∧
     stepOf <$> calls = plan test) ∧
  (Result.Passed r = false →
     Result.Error r = Some "response mismatch" ∨
     Result.Expected r = EmptyString ∧ Result.Actual r = EmptyString) ∧
  stepOf <$> calls `prefix_of` plan test ∧
  ∃ rest, calls = ReadFile (Request test) :: rest.

End Runner.

(** ** The header flags of the command *)

Inductive HeaderError :=
  | InvalidHeaderFormat (h : string).

Section Headers.
(** [strings.TrimSpace] is left open: what is proved holds whatever it
    removes. *)
Variable TrimSpace : string → string.

Fixpoint parseHeadersFrom (headerFlags : list string) (headers : gmap string string)
    : HeaderError + gmap string string :=
  match headerFlags with
  | [] => inr headers
  | h :: rest =>
      match strings.SplitN2 h ":"%char with
      | [key; value] =>
          parseHeadersFrom rest (<[TrimSpace key := TrimSpace value]> headers)
      | _ => inl (InvalidHeaderFormat h)
      end
  end.

Definition parseHeaders (headerFlags : list string) : HeaderError + gmap string string :=
  parseHeadersFrom headerFlags ∅.

(** The flag [h] reads as the key [k] with the value [v]: it is cut at
    its first colon and both parts are trimmed. *)
Definition keyed (k v h : string) : Prop :=
  ∃ a b, h = a +:+ String ":" b ∧ strings.Contains a ":" = false ∧
         TrimSpace a = k ∧ TrimSpace b = v.

End Headers.

(** ** An outside to compute with *)

(** A codec in which a value is its own text. *)
Definition textJSON : EncodingJSON := {|
  Value := string;
  VariableMap := string;
  nilMap := EmptyString;
  Unmarshal := inr;
  Marshal := inr;
  UnmarshalVariables := inr;
|}.

(** A handler that answers a call with its argument: a file holds its
    own name, the endpoint and the transform return what they are sent.
    The state counts the calls. *)
Definition echo (c : @Call textJSON) (w : nat) : nat * Answer :=
  (S w, inr match c with
            | ReadFile name => name
            | Execute query _ => query
            | TransformJSON _ data => data
            end).

(** A suite of a sequenced directory with a fixture is referenced. *)
Definition refsGood (k : string) (su : Suite) : Prop :=
  0 ≤ refs su ∧
  ∀ b, Base su = Some b → k ≠ EmptyString → 0 ≤ Seq b → 1 ≤ refs su.

(** * String facts *)

Module strings_facts.
Import strings.

Lemma app_cons c s t : String c s +:+ t = String c (s +:+ t).
Proof. reflexivity. Qed.

Lemma app_nil_l s : EmptyString +:+ s = s.
Proof. reflexivity. Qed.

Lemma app_nil_r s : s +:+ EmptyString = s.
Proof. induction s as [|c s IH]; [done|]. by rewrite app_cons, IH. Qed.

Lemma app_assoc s t u : (s +:+ t) +:+ u = s +:+ (t +:+ u).
Proof. induction s as [|c s IH]; [done|]. by rewrite !app_cons, IH. Qed.

Lemma length_app s t :
  String.length (s +:+ t) = (String.length s + String.length t)%nat.
Proof. induction s as [|c s IH]; [done|]. rewrite app_cons. simpl. by rewrite IH. Qed.

Lemma HasPrefix_spec s p : HasPrefix s p = true ↔ ∃ r, s = p +:+ r.
Proof.
  revert s. induction p as [|c p IH]; intros s.
  - destruct s; simpl; split; eauto.
  - destruct s as [|d s]; simpl.
    + split; [done|]. intros [r Hr]. by rewrite app_cons in Hr.
    + destruct (Ascii.eqb_spec c d) as [->|Hne].
      * rewrite IH. split; intros [r Hr]; exists r.
        -- by rewrite app_cons, Hr.
        -- rewrite app_cons in Hr. by simplify_eq.
      * split; [done|]. intros [r Hr]. rewrite app_cons in Hr. by simplify_eq.
Qed.

Lemma Contains_nil sub : Contains EmptyString sub = HasPrefix EmptyString sub.
Proof. destruct sub; reflexivity. Qed.

Lemma Contains_cons c s sub :
  Contains (String c s) sub = HasPrefix (String c s) sub || Contains s sub.
Proof. reflexivity. Qed.

Lemma Contains_spec s sub :
  Contains s sub = true ↔ ∃ a b, s = a +:+ sub +:+ b.
Proof.
  induction s as [|c s IH].
  - rewrite Contains_nil, HasPrefix_spec. split.
    + intros [r Hr]. by exists EmptyString, r.
    + intros [a [b Hab]]. destruct a; [by exists b|]. by rewrite app_cons in Hab.
  - rewrite Contains_cons, orb_true_iff, IH, HasPrefix_spec. split.
    + intros [[r Hr]|[a [b Hab]]].
      * by exists EmptyString, r.
      * exists (String c a), b. by rewrite app_cons, Hab.
    + intros [a [b Hab]]. destruct a as [|d a].
      * left. by exists b.
      * right. exists a, b. rewrite app_cons in Hab. by simplify_eq.
Qed.

Lemma Contains_app_l a s sub :
  Contains s sub = true → Contains (a +:+ s) sub = true.
Proof.
  rewrite !Contains_spec. intros [x [y ->]].
  exists (a +:+ x), y. by rewrite app_assoc.
Qed.

Lemma Contains_app_r s b sub :
  Contains s sub = true → Contains (s +:+ b) sub = true.
Proof.
  rewrite !Contains_spec. intros [x [y ->]].
  exists x, (y +:+ b). by rewrite !app_assoc.
Qed.

Lemma Contains_false_app_l a s sub :
  Contains (a +:+ s) sub = false → Contains s sub = false.
Proof.
  intros H. destruct (Contains s sub) eqn:E; [|done].
  by rewrite (Contains_app_l a _ _ E) in H.
Qed.

Lemma Contains_false_app_r s b sub :
  Contains (s +:+ b) sub = false → Contains s sub = false.
Proof.
  intros H. destruct (Contains s sub) eqn:E; [|done].
  by rewrite (Contains_app_r _ b _ E) in H.
Qed.

Lemma Split_cons s sep : ∃ h t, Split s sep = h :: t.
Proof.
  induction s as [|c s [h [t IH]]]; simpl; [by eauto|].
  destruct (Ascii.eqb c sep); [by eauto|]. rewrite IH. by eauto.
Qed.

Lemma Join_cons x y l sep :
  Join (x :: y :: l) sep = x +:+ String sep (Join (y :: l) sep).
Proof. reflexivity. Qed.

Lemma Join_Split s sep : Join (Split s sep) sep = s.
Proof.
  induction s as [|c s IH]; [done|]. simpl.
  destruct (Ascii.eqb_spec c sep) as [->|Hne].
  - destruct (Split_cons s sep) as [h [t E]]. rewrite E in *.
    by rewrite Join_cons, IH.
  - destruct (Split_cons s sep) as [h [t E]]. rewrite E in *.
    destruct t as [|y t]; simpl in *; [by subst|].
    by rewrite app_cons, <- IH.
Qed.

Lemma Join_snoc l x sep :
  l ≠ [] → Join (l ++ [x]) sep = Join l sep +:+ String sep x.
Proof.
  induction l as [|a l IH]; [done|]. intros _.
  destruct l as [|b l]; [done|].
  change ((a :: b :: l) ++ [x]) with (a :: (b :: l) ++ [x]).
  change ((b :: l) ++ [x]) with (b :: (l ++ [x])) at 1.
  rewrite Join_cons. change (b :: (l ++ [x])) with ((b :: l) ++ [x]).
  rewrite IH by done. by rewrite Join_cons, app_assoc, app_cons.
Qed.

(** A path is its parent part, a separator and its last element. *)
Lemma Join_removelast s sep :
  List.removelast (Split s sep) ≠ [] →
  s = Join (List.removelast (Split s sep)) sep +:+ String sep (List.last (Split s sep) EmptyString).
Proof.
  intros Hne. destruct (Split_cons s sep) as [h [t E]].
  assert (Split s sep ≠ []) as Hs by (by rewrite E).
  rewrite <- Join_snoc by done.
  by rewrite <- app_removelast_last, Join_Split.
Qed.

End strings_facts.

(** * The ordering engine *)

Section OrderingFacts.
Context {rt : GoRuntime}.
Import strings strings_facts.

Lemma removelast_nonempty {A} (l : list A) :
  (1 < length l)%nat → List.removelast l ≠ [].
Proof. destruct l as [|a [|b l]]; simpl; intros; [lia|lia|done]. Qed.

(** The parent path is a proper prefix of the path. *)
Lemma getParentPath_prefix p :
  getParentPath p ≠ EmptyString →
  ∃ n, p = getParentPath p +:+ String filepath.Separator n.
Proof.
  unfold getParentPath. destruct (String.eqb p EmptyString); [done|].
  destruct (Nat.leb_spec (length (Split p filepath.Separator)) 1); [done|].
  intros _. eexists. by apply Join_removelast, removelast_nonempty.
Qed.

Lemma getParentPath_shorter p :
  getParentPath p ≠ EmptyString →
  (String.length (getParentPath p) < String.length p)%nat.
Proof.
  intros [n Hn]%getParentPath_prefix. rewrite Hn at 2.
  rewrite length_app. simpl. lia.
Qed.

Lemma getParentPath_empty : getParentPath EmptyString = EmptyString.
Proof. reflexivity. Qed.

Lemma runWithVisited_eq fuel s p m st :
  runWithVisited fuel s p m st =
  if isVisited st p then Some st
  else
    match s !! p with
    | None => Some st
    | Some suite =>
        match (if String.eqb (getParentPath p) EmptyString then Some st
               else match fuel with
                    | O => None
                    | S fuel' => runWithVisited fuel' s (getParentPath p) (-1) st
                    end) with
        | None => None
        | Some st1 => Some (runSuite s p suite m st1)
        end
    end.
Proof. destruct fuel; reflexivity. Qed.

(** The recursion returns for every fuel that covers the length of
    the path, and with the same result. *)
Lemma runWithVisited_total fuel s p m st :
  (String.length p ≤ fuel)%nat → is_Some (runWithVisited fuel s p m st).
Proof.
  revert p m st. induction fuel as [|fuel IH]; intros p m st Hlen;
    rewrite runWithVisited_eq.
  - destruct p; [|simpl in Hlen; lia].
    destruct (isVisited st _); [done|]. destruct (s !! _); [|done].
    by rewrite getParentPath_empty.
  - destruct (isVisited st p); [done|]. destruct (s !! p) as [su|]; [|done].
    destruct (String.eqb_spec (getParentPath p) EmptyString) as [E|E]; [done|].
    apply getParentPath_shorter in E.
    destruct (IH (getParentPath p) (-1) st) as [st1 ->]; [lia|done].
Qed.

Lemma runWithVisited_fuel f1 f2 s p m st :
  (String.length p ≤ f1)%nat → (String.length p ≤ f2)%nat →
  runWithVisited f1 s p m st = runWithVisited f2 s p m st.
Proof.
  revert f2 p m st. induction f1 as [|f1 IH]; intros f2 p m st H1 H2;
    rewrite (runWithVisited_eq _ s p), (runWithVisited_eq f2 s p).
  - destruct p; [|simpl in H1; lia]. by rewrite getParentPath_empty.
  - destruct (isVisited st p); [done|]. destruct (s !! p) as [su|]; [|done].
    destruct (String.eqb_spec (getParentPath p) EmptyString) as [E|E]; [done|].
    apply getParentPath_shorter in E.
    destruct f2 as [|f2]; [lia|]. rewrite (IH f2); [done|lia|lia].
Qed.

(** [run] gets its list from a call that returns. *)
Lemma run_returns s p m :
  ∃ st, runWithVisited (String.length p) s p m (mkRunState ∅ []) = Some st ∧
        run s p m = emitted st.
Proof.
  destruct (runWithVisited_total (String.length p) s p m (mkRunState ∅ []))
    as [st Hst]; [done|].
  exists st. split; [done|]. unfold run. by rewrite Hst.
Qed.

(** [run], as an equation: the parent's tests unless the parent path
    is empty, the suite's own base test, its sorted child tests. *)
Lemma run_eq s p m :
  run s p m =
  match s !! p with
  | None => []
  | Some suite =>
      (if String.eqb (getParentPath p) EmptyString then []
       else run s (getParentPath p) (-1))
      ++ baseTest suite ++ childTests s suite m
  end.
Proof.
  unfold run. rewrite runWithVisited_eq.
  unfold isVisited at 1. simpl. rewrite lookup_empty. simpl.
  destruct (s !! p) as [su|]; [|done].
  destruct (String.eqb_spec (getParentPath p) EmptyString) as [E|E]; [done|].
  pose proof (getParentPath_shorter p E) as Hlt.
  destruct (String.length p) as [|f] eqn:Hf; [lia|].
  rewrite (runWithVisited_fuel f (String.length (getParentPath p))) by lia.
  destruct (runWithVisited_total (String.length (getParentPath p)) s
              (getParentPath p) (-1) (mkRunState ∅ [])) as [st1 ->]; [lia|done].
Qed.

End OrderingFacts.

(** ** The comparator is a strict weak ordering *)

Section Comparator.

Lemma ltb_notAfter a b : notAfter String.ltb a b ↔ String.le a b.
Proof.
  unfold notAfter, String.le, String.ltb, String.leb.
  rewrite (String.compare_antisym b a).
  destruct (String.compare a b); simpl; naive_solver.
Qed.

Global Instance ltb_notAfter_trans : Transitive (notAfter String.ltb).
Proof.
  intros a b c. rewrite !ltb_notAfter. apply (transitivity (R := String.le)).
Qed.

Global Instance ltb_notAfter_total : Total (notAfter String.ltb).
Proof. intros a b. rewrite !ltb_notAfter. apply (total String.le). Qed.

Lemma ltb_irrefl a : String.ltb a a = false.
Proof. apply (ltb_notAfter a a). done. Qed.

Lemma childLess_cases a b :
  childLess b a = false ↔
  (0 ≤ Seq a ∧ 0 ≤ Seq b ∧ Seq a ≤ Seq b) ∨
  (0 ≤ Seq a ∧ Seq b < 0) ∨
  (Seq a < 0 ∧ Seq b < 0 ∧ String.le (Name a) (Name b)).
Proof.
  unfold childLess.
  destruct (Z.leb_spec 0 (Seq a)) as [Ha|Ha], (Z.leb_spec 0 (Seq b)) as [Hb|Hb];
    simpl.
  - rewrite Z.ltb_ge. split; [intros; left; lia|].
    intros [?|[?|(?&?&?)]]; lia.
  - split; [intros _; right; left; lia|done].
  - split; [done|]. intros [?|[?|(?&?&?)]]; lia.
  - fold (notAfter String.ltb (Name a) (Name b)). rewrite ltb_notAfter.
    split; [intros; right; right; done|].
    intros [?|[?|(?&?&?)]]; [lia|lia|done].
Qed.

Global Instance childLess_trans : Transitive (notAfter childLess).
Proof.
  intros a b c. unfold notAfter. rewrite !childLess_cases.
  intros [?|[?|(?&?&?)]] [?|[?|(?&?&?)]]; try lia.
  right; right. repeat split; [lia|lia|by etrans].
Qed.

Global Instance childLess_total : Total (notAfter childLess).
Proof.
  intros a b. unfold notAfter. rewrite !childLess_cases.
  destruct (total String.le (Name a) (Name b));
    destruct (Z.lt_ge_cases (Seq a) 0), (Z.lt_ge_cases (Seq b) 0),
      (Z.le_ge_cases (Seq a) (Seq b));
    first [ left; left; lia | left; right; left; lia
          | left; right; right; repeat split; [lia|lia|done]
          | right; left; lia | right; right; left; lia
          | right; right; right; repeat split; [lia|lia|done] ].
Qed.

End Comparator.

Section ChildTests.
Context {rt : GoRuntime}.

Lemma collectChild_Some s m p t :
  collectChild s m p = Some t ↔
  ∃ child, s !! p = Some child ∧ Base child = Some t ∧ IsValid t = true ∧
           ¬ (0 ≤ m ∧ 0 ≤ Seq t ∧ m < Seq t).
Proof.
  unfold collectChild. split.
  - destruct (s !! p) as [child|] eqn:Hp; [|done].
    destruct (Base child) as [b|] eqn:Hb; [|done].
    destruct (IsValid b) eqn:Hv; [|done]. simpl.
    destruct (Z.leb_spec 0 m), (Z.leb_spec 0 (Seq b)), (Z.ltb_spec m (Seq b));
      simpl; intros; simplify_eq; exists child; repeat split; try done; lia.
  - intros (child & -> & -> & -> & Hn). simpl.
    destruct (Z.leb_spec 0 m), (Z.leb_spec 0 (Seq t)), (Z.ltb_spec m (Seq t));
      simpl; try done. exfalso. apply Hn. lia.
Qed.

Lemma childTests_perm s su m :
  childTests s su m ≡ₚ
  omap (λ kv : string * string, collectChild s m kv.2) (map_to_list (Tests su)).
Proof.
  unfold childTests. rewrite sort_Slice_perm.
  apply omap_Permutation, range_map_perm.
Qed.

Lemma childTests_elem s su m t :
  t ∈ childTests s su m ↔
  ∃ n p, Tests su !! n = Some p ∧ collectChild s m p = Some t.
Proof.
  rewrite childTests_perm, list_elem_of_omap. split.
  - intros [[n p] [Hin Hc]]. apply elem_of_map_to_list in Hin. eauto.
  - intros (n & p & Hl & Hc). exists (n, p). by rewrite elem_of_map_to_list.
Qed.

Lemma childTests_sorted s su m :
  StronglySorted (notAfter childLess) (childTests s su m).
Proof. apply sort_Slice_sorted; apply _. Qed.

Lemma baseTest_elem su t :
  t ∈ baseTest su ↔ Base su = Some t ∧ IsValid t = true.
Proof.
  unfold baseTest. destruct (Base su) as [b|].
  - destruct (IsValid b) eqn:E.
    + rewrite list_elem_of_singleton. split; [by intros ->|].
      intros [? _]. by simplify_eq.
    + rewrite elem_of_nil. split; [done|]. intros [? ?]. simplify_eq. congruence.
  - rewrite elem_of_nil. split; [done|]. by intros [? _].
Qed.

(** Whatever [run] emits is the valid base test of a suite of the map. *)
Lemma run_elem s p m t :
  t ∈ run s p m →
  IsValid t = true ∧ ∃ k su, s !! k = Some su ∧ Base su = Some t.
Proof.
  remember (String.length p) as n eqn:Hn. revert p m Hn.
  induction n as [n IH] using lt_wf_ind. intros p m Hn.
  rewrite run_eq. destruct (s !! p) as [su|] eqn:Hp; [|by rewrite elem_of_nil].
  rewrite !elem_of_app. intros [Hin|[Hin|Hin]].
  - destruct (String.eqb_spec (getParentPath p) EmptyString) as [E|E];
      [by apply elem_of_nil in Hin|].
    apply (IH (String.length (getParentPath p))) in Hin; [done| |done].
    subst n. by apply getParentPath_shorter.
  - apply baseTest_elem in Hin as [? ?]. eauto.
  - apply childTests_elem in Hin as (k & q & _ & Hc).
    apply collectChild_Some in Hc as (child & ? & ? & ? & _). eauto.
Qed.

End ChildTests.

(** C7: every test that [run] emits, for any suites, start path and
    [maxSeq], is valid (request and response are both set) and is the
    base test of a suite of the map; a missing or invalid base test and
    invalid children add nothing. *)
Theorem emitted_tests_valid `{rt : GoRuntime} (s : Suites) (p : string) (m : Z) :
  Forall (λ t, IsValid t = true ∧
               Request t ≠ EmptyString ∧ Response t ≠ EmptyString ∧
               ∃ k su, s !! k = Some su ∧ Base su = Some t)
         (run s p m) ∧
  (∀ su, (Base su = None ∨ ∃ b, Base su = Some b ∧ IsValid b = false) →
         baseTest su = []).
Proof.
  split.
  - apply Forall_forall. intros t Hin. apply run_elem in Hin as [Hv Hs].
    split; [done|]. unfold IsValid in Hv.
    apply andb_true_iff in Hv as [H1 H2].
    apply negb_true_iff in H1, H2.
    apply String.eqb_neq in H1, H2. done.
  - intros su [Hb|(b & Hb & Hv)]; unfold baseTest; rewrite Hb; [done|].
    by rewrite Hv.
Qed.

(** C10: for a start path that is not a key of the suites, [run] and
    [GetOrderedTests] return the empty sequence, whatever the suites
    hold for the ancestors of the path. *)
Theorem missing_path_runs_nothing `{rt : GoRuntime} (s : Suites) (p : string) (m : Z) :
  s !! p = None → run s p m = [] ∧ GetOrderedTests s p = [].
Proof.
  intros Hp. unfold GetOrderedTests. split; by rewrite run_eq, Hp.
Qed.

(** The pruned path [a/b] of [orphanTree]: nothing runs, though the
    suite of its parent [a] has a valid base test. *)
Lemma missing_path_runs_nothing_witness :
  orphanSuites !! "a/b" = None ∧
  (baseTest <$> orphanSuites !! "a") = Some [fixture "/r" "a" "a" (-1)] ∧
  run orphanSuites "a/b" 2 = [] ∧
  GetOrderedTests orphanSuites "a/b" = [].
Proof.
  split; [by vm_compute|]. split; [by vm_compute|].
  apply (missing_path_runs_nothing orphanSuites "a/b" 2).
  by vm_compute.
Defined.


(** ** Parent before child *)

Section Ancestors.
Context {rt : GoRuntime}.

Lemma ancestorPath_S k p :
  ancestorPath (S k) p = ancestorPath k (getParentPath p).
Proof.
  unfold ancestorPath. induction k as [|k IH]; [done|].
  simpl in *. by rewrite IH.
Qed.



End Ancestors.




(** ** Order of the child tests, and independence of the runtime *)

Section Determinism.

Lemma collectChild_unbounded s m p t :
  collectChild s m p = Some t → collectChild s (-1) p = Some t.
Proof.
  rewrite !collectChild_Some. intros (child & ? & ? & ? & _).
  exists child. repeat split; try done. lia.
Qed.

Lemma childTests_validChildren `{rt : GoRuntime} s su m t :
  t ∈ childTests s su m → t ∈ validChildren s su.
Proof.
  rewrite childTests_elem. intros (n & p & Hl & Hc).
  apply list_elem_of_omap. exists (n, p). split.
  - by apply elem_of_map_to_list.
  - by apply collectChild_unbounded in Hc.
Qed.

Lemma untiedb_spec l a b :
  untiedb l = true → a ∈ l → b ∈ l → a ≠ b →
  childLess a b = true ∨ childLess b a = true.
Proof.
  unfold untiedb. rewrite forallb_forall. intros H Ha Hb Hne.
  apply list_elem_of_In in Ha, Hb.
  specialize (H a Ha). rewrite forallb_forall in H. specialize (H b Hb).
  apply orb_true_iff in H as [H|H]; [|by right].
  apply orb_true_iff in H as [H|H]; [|by left].
  by apply bool_decide_eq_true in H.
Qed.

Lemma tieFreeb_spec s k su :
  tieFreeb s = true → s !! k = Some su → untiedb (validChildren s su) = true.
Proof.
  unfold tieFreeb. rewrite forallb_forall. intros H Hk.
  apply (H (k, su)). apply list_elem_of_In. by apply elem_of_map_to_list.
Qed.

(** Two sorted arrangements of the same tests are equal when no two
    different tests are tied. *)
Lemma sorted_perm_unique (l1 l2 : list Test) :
  l1 ≡ₚ l2 →
  StronglySorted (notAfter childLess) l1 →
  StronglySorted (notAfter childLess) l2 →
  (∀ a b, a ∈ l1 → b ∈ l1 → a ≠ b → childLess a b = true ∨ childLess b a = true) →
  l1 = l2.
Proof.
  revert l2. induction l1 as [|a l1 IH]; intros l2 Hp H1 H2 Hu.
  - by apply Permutation_nil_l in Hp.
  - destruct l2 as [|b l2]; [by apply Permutation_nil_r in Hp|].
    apply StronglySorted_cons in H1 as [Ha H1].
    apply StronglySorted_cons in H2 as [Hb H2].
    destruct (decide (a = b)) as [->|Hne].
    + f_equal. apply IH; try done.
      * by apply Permutation_cons_inv in Hp.
      * intros x y Hx Hy. apply Hu; by apply list_elem_of_further.
    + exfalso.
      assert (a ∈ l2) as Hal2.
      { assert (a ∈ b :: l2) as Hin by (rewrite <- Hp; apply list_elem_of_here).
        apply elem_of_cons in Hin as [?|?]; done. }
      assert (b ∈ l1) as Hbl1.
      { assert (b ∈ a :: l1) as Hin by (rewrite Hp; apply list_elem_of_here).
        apply elem_of_cons in Hin as [?|?]; done. }
      rewrite Forall_forall in Ha, Hb.
      specialize (Ha b Hbl1). specialize (Hb a Hal2). unfold notAfter in Ha, Hb.
      destruct (Hu a b) as [H|H]; try done; try congruence.
      * apply list_elem_of_here.
      * by apply list_elem_of_further.
Qed.

Lemma childTests_unique (rt1 rt2 : GoRuntime) s su m :
  untiedb (validChildren s su) = true →
  @childTests rt1 s su m = @childTests rt2 s su m.
Proof.
  intros Hu. apply sorted_perm_unique.
  - by rewrite !childTests_perm.
  - apply childTests_sorted.
  - apply childTests_sorted.
  - intros a b Ha Hb. apply (untiedb_spec _ _ _ Hu).
    + exact (@childTests_validChildren rt1 _ _ _ _ Ha).
    + exact (@childTests_validChildren rt1 _ _ _ _ Hb).
Qed.

(** After a test without a sequence number come only tests without one,
    by name; before a sequenced test come only sequenced tests. *)
Lemma childTests_order `{rt : GoRuntime} s su m l1 a l2 b l3 :
  childTests s su m = l1 ++ a :: l2 ++ b :: l3 →
  (0 ≤ Seq a ∧ 0 ≤ Seq b ∧ Seq a ≤ Seq b) ∨
  (0 ≤ Seq a ∧ Seq b < 0) ∨
  (Seq a < 0 ∧ Seq b < 0 ∧ String.le (Name a) (Name b)).
Proof.
  intros E. pose proof (childTests_sorted s su m) as Hs. rewrite E in Hs.
  apply StronglySorted_app in Hs as (_ & _ & Hs).
  apply StronglySorted_cons in Hs as [Hs _].
  rewrite Forall_forall in Hs. apply childLess_cases. apply Hs.
  apply elem_of_app. right. apply list_elem_of_here.
Qed.

End Determinism.

(** C4, as the code has it: two calls of [run] on the same suites, start
    path and [maxSeq] return the same sequence, whatever order [range]
    and [sort.Slice] take in each, provided no suite has two different
    valid child tests that tie under the comparator (equal sequence
    numbers, or no sequence numbers and equal names). *)
Theorem run_deterministic (rt1 rt2 : GoRuntime) (s : Suites) (p : string) (m : Z) :
  tieFreeb s = true →
  @run rt1 s p m = @run rt2 s p m.
Proof.
  intros Htf. remember (String.length p) as n eqn:Hn. revert p m Hn.
  induction n as [n IH] using lt_wf_ind. intros p m Hn.
  rewrite (@run_eq rt1), (@run_eq rt2).
  destruct (s !! p) as [su|] eqn:Hp; [|done].
  f_equal; [|f_equal].
  - destruct (String.eqb_spec (getParentPath p) EmptyString) as [E|E]; [done|].
    apply (IH (String.length (getParentPath p))); [|done].
    subst n. by apply getParentPath_shorter.
  - apply childTests_unique. by eapply tieFreeb_spec.
Qed.

(** The scenario has no tied children: both runtimes give one order. *)
Lemma run_deterministic_witness :
  tieFreeb scenarioSuites = true ∧
  @run sortedRuntime scenarioSuites EmptyString 1 =
  @run reversedRuntime scenarioSuites EmptyString 1.
Proof.
  split; [by vm_compute|].
  apply (run_deterministic sortedRuntime reversedRuntime scenarioSuites EmptyString 1).
  by vm_compute.
Defined.

(** C4 as stated fails: for two sibling directories with the same
    sequence number the order of the output follows the order in which
    [range] goes through the child tests. *)
Lemma tied_children_order_varies :
  succeeds "/r" tieTree = true ∧
  map Dir (@GetOrderedTests sortedRuntime tieSuites EmptyString)
    = [EmptyString; "01_b"; "001_a"] ∧
  map Dir (@GetOrderedTests reversedRuntime tieSuites EmptyString)
    = [EmptyString; "001_a"; "01_b"] ∧
  @GetOrderedTests sortedRuntime tieSuites EmptyString ≠
  @GetOrderedTests reversedRuntime tieSuites EmptyString.
Proof.
  repeat split; by vm_compute.
Qed.

(** ** Merging the fragments of a directory *)

Section Merge.

Lemma mergeTest_fields dst src :
  mergeTest dst src =
  mkTest (Name dst) (Dir dst) (AbsDir dst) (Seq dst)
    (overwrite (Request dst) (Request src))
    (overwrite (Response dst) (Response src))
    (overwrite (Variables dst) (Variables src))
    (overwrite (Transform dst) (Transform src)).
Proof.
  unfold mergeTest, overwrite. destruct dst, src; simpl.
  repeat match goal with |- context [String.eqb ?x EmptyString] =>
    destruct (String.eqb x EmptyString) end; reflexivity.
Qed.

Lemma overwrite_assoc x y z :
  overwrite (overwrite x y) z = overwrite x (overwrite y z).
Proof.
  unfold overwrite. destruct (String.eqb_spec z EmptyString); [done|].
  by destruct (String.eqb_spec z EmptyString).
Qed.

Lemma overwrite_comm x y : agree x y → overwrite x y = overwrite y x.
Proof.
  unfold overwrite, agree.
  destruct (String.eqb_spec x EmptyString), (String.eqb_spec y EmptyString);
    intros [?|[?|?]]; congruence.
Qed.

Lemma overwrite_swap acc x y :
  agree x y → overwrite (overwrite acc x) y = overwrite (overwrite acc y) x.
Proof.
  unfold overwrite, agree.
  destruct (String.eqb_spec x EmptyString), (String.eqb_spec y EmptyString);
    intros [?|[?|?]]; congruence.
Qed.

Lemma mergeTest_assoc a b c :
  mergeTest (mergeTest a b) c = mergeTest a (mergeTest b c).
Proof. rewrite !mergeTest_fields. simpl. by rewrite !overwrite_assoc. Qed.

Lemma mergeTest_comm a b : compatible a b → mergeTest a b = mergeTest b a.
Proof.
  intros (Hn & Hd & Ha & Hs & H1 & H2 & H3 & H4).
  rewrite !mergeTest_fields, Hn, Hd, Ha, Hs.
  f_equal; by apply overwrite_comm.
Qed.

Lemma mergeTest_swap acc a b :
  compatible a b →
  mergeTest (mergeTest acc a) b = mergeTest (mergeTest acc b) a.
Proof.
  intros (_ & _ & _ & _ & H1 & H2 & H3 & H4). rewrite !mergeTest_fields. simpl.
  f_equal; by apply overwrite_swap.
Qed.

Lemma foldl_mergeTest_perm acc l1 l2 :
  l1 ≡ₚ l2 →
  (∀ a b, a ∈ l1 → b ∈ l1 → compatible a b) →
  foldl mergeTest acc l1 = foldl mergeTest acc l2.
Proof.
  intros Hp. revert acc. induction Hp as [|x l l' Hp IH|x y l|l l' l'' Hp1 IH1 Hp2 IH2];
    intros acc Hc; simpl.
  - done.
  - apply IH. intros a b Ha Hb. apply Hc; by apply list_elem_of_further.
  - f_equal. apply mergeTest_swap. apply Hc.
    + apply list_elem_of_here.
    + apply list_elem_of_further, list_elem_of_here.
  - rewrite IH1 by done. apply IH2.
    intros a b Ha Hb. apply Hc; by rewrite Hp1.
Qed.

Lemma mergeTest_blank a :
  mergeTest (mkTest (Name a) (Dir a) (AbsDir a) (Seq a)
               EmptyString EmptyString EmptyString EmptyString) a = a.
Proof.
  rewrite mergeTest_fields. destruct a as [n d ad sq rq rs vs tf]. simpl.
  unfold overwrite.
  destruct (String.eqb_spec rq EmptyString), (String.eqb_spec rs EmptyString),
    (String.eqb_spec vs EmptyString), (String.eqb_spec tf EmptyString);
    by subst.
Qed.

Lemma mergeAll_perm l1 l2 :
  l1 ≡ₚ l2 →
  (∀ a b, a ∈ l1 → b ∈ l1 → compatible a b) →
  mergeAll l1 = mergeAll l2.
Proof.
  intros Hp Hc. destruct l1 as [|a l1], l2 as [|b l2]; simpl.
  - done.
  - by apply Permutation_nil_l in Hp.
  - by apply Permutation_nil_r in Hp.
  - f_equal.
    assert (compatible a b) as (Hn & Hd & Ha & Hs & _).
    { apply Hc; [apply list_elem_of_here|]. rewrite Hp. apply list_elem_of_here. }
    pose (e := mkTest (Name b) (Dir b) (AbsDir b) (Seq b)
                 EmptyString EmptyString EmptyString EmptyString).
    trans (foldl mergeTest e (a :: l1)).
    { simpl. unfold e. by rewrite <- Hn, <- Hd, <- Ha, <- Hs, mergeTest_blank. }
    trans (foldl mergeTest e (b :: l2)).
    { by apply foldl_mergeTest_perm. }
    simpl. unfold e. by rewrite mergeTest_blank.
Qed.

End Merge.

(** * Discovery *)

Section Paths.
Import strings strings_facts.

Lemma drop_app a b : filepath.drop (String.length a) (a +:+ b) = b.
Proof. induction a as [|c a IH]; [by destruct b|]. by rewrite app_cons. Qed.

Lemma eqb_app_cons a c b : String.eqb a (a +:+ String c b) = false.
Proof.
  apply String.eqb_neq. intros E. apply (f_equal String.length) in E.
  rewrite length_app in E. simpl in E. lia.
Qed.

(** The relative path of a path beneath the root is its tail, after a
    separator. *)
Lemma Rel_beneath absPath path :
  beneath absPath path → path ≠ absPath →
  ∃ pre, path = pre +:+ String filepath.Separator (filepath.Rel absPath path).
Proof.
  intros [->|[r ->]] Hne; [done|]. unfold filepath.Rel.
  destruct (String.eqb_spec absPath (slashed absPath +:+ String filepath.Separator r))
    as [E|_]; [by rewrite <- E in Hne|].
  unfold slashed in *. destruct (String.eqb_spec absPath "/") as [->|Hroot].
  - rewrite app_nil_l. simpl. destruct r as [|c r]; [done|].
    destruct (Ascii.eqb_spec c filepath.Separator) as [->|_].
    + by exists "/".
    + by exists EmptyString.
  - rewrite drop_app. rewrite Ascii.eqb_refl. by exists absPath.
Qed.

(** The directory part of a relative path is empty (the dot) or what
    stands before its last separator. *)
Lemma Dir_prefix rel :
  filepath.Dir rel = "." ∨
  ∃ x, rel = filepath.Dir rel +:+ String filepath.Separator x.
Proof.
  unfold filepath.Dir.
  destruct (List.removelast (Split rel filepath.Separator)) as [|a l] eqn:E;
    [by left|].
  right. eexists. rewrite <- E. apply Join_removelast. by rewrite E.
Qed.

Lemma skipped_empty : skipped EmptyString = false.
Proof. reflexivity. Qed.

Lemma skipped_prefix k x :
  skipped (k +:+ String filepath.Separator x) = false → skipped k = false.
Proof.
  unfold skipped. rewrite <- app_cons. apply Contains_false_app_r.
Qed.

Lemma skipped_getParentPath k :
  skipped k = false → skipped (getParentPath k) = false.
Proof.
  intros Hk.
  destruct (String.eqb_spec (getParentPath k) EmptyString) as [->|E]; [done|].
  apply getParentPath_prefix in E as [n Hn]. rewrite Hn in Hk.
  by apply skipped_prefix in Hk.
Qed.

(** What [parseTestFile] returns, when it returns a test. *)
Lemma parseTestFile_Some absPath path isDir t :
  parseTestFile absPath path isDir = Some t →
  let rel := filepath.Rel absPath path in
  let dir := if String.eqb (filepath.Dir rel) "." then EmptyString
             else filepath.Dir rel in
  isDir = false ∧ Contains path "/SKIP" = false ∧
  Dir t = dir ∧ Name t = testNameOf dir ∧ Seq t = seqOf (testNameOf dir) ∧
  AbsDir t = filepath.Join absPath dir ∧
  ((filepath.Base rel = "request.gql" ∧ Request t = path ∧
    Response t = EmptyString ∧ Variables t = EmptyString ∧ Transform t = EmptyString) ∨
   (filepath.Base rel = "response.json" ∧ Request t = EmptyString ∧
    Response t = path ∧ Variables t = EmptyString ∧ Transform t = EmptyString) ∨
   (filepath.Base rel = "variables.json" ∧ Request t = EmptyString ∧
    Response t = EmptyString ∧ Variables t = path ∧ Transform t = EmptyString) ∨
   (filepath.Base rel = "transform.jq" ∧ Request t = EmptyString ∧
    Response t = EmptyString ∧ Variables t = EmptyString ∧ Transform t = path)).
Proof.
  unfold parseTestFile. destruct isDir; [done|].
  destruct (Contains path "/SKIP") eqn:Hc; [done|].
  set (rel := filepath.Rel absPath path).
  destruct (String.eqb_spec (filepath.Base rel) "request.gql") as [E1|_].
  { intros [= <-]. simpl. repeat split; try done. left. done. }
  destruct (String.eqb_spec (filepath.Base rel) "response.json") as [E2|_].
  { intros [= <-]. simpl. repeat split; try done. right; left. done. }
  destruct (String.eqb_spec (filepath.Base rel) "variables.json") as [E3|_].
  { intros [= <-]. simpl. repeat split; try done. right; right; left. done. }
  destruct (String.eqb_spec (filepath.Base rel) "transform.jq") as [E4|_]; [|done].
  intros [= <-]. simpl. repeat split; try done. right; right; right. done.
Qed.

Lemma parseTestFile_root absPath isDir : parseTestFile absPath absPath isDir = None.
Proof.
  unfold parseTestFile. destruct isDir; [done|].
  destruct (Contains absPath "/SKIP"); [done|].
  unfold filepath.Rel. by rewrite String.eqb_refl.
Qed.

(** A test parsed from a path beneath the root is filed under a
    directory that is not skipped, and its path fields are clean. *)
Lemma parseTestFile_clean absPath path isDir t :
  beneath absPath path →
  parseTestFile absPath path isDir = Some t →
  skipped (Dir t) = false ∧ cleanFields t.
Proof.
  intros Hb Hp.
  assert (path ≠ absPath) as Hne.
  { intros ->. by rewrite parseTestFile_root in Hp. }
  destruct (parseTestFile_Some _ _ _ _ Hp) as (_ & Hc & Hd & _ & _ & _ & Hf).
  split.
  - rewrite Hd. destruct (String.eqb_spec (filepath.Dir (filepath.Rel absPath path)) ".")
      as [_|_]; [done|].
    destruct (Dir_prefix (filepath.Rel absPath path)) as [E|[x Hx]].
    { by rewrite E. }
    destruct (Rel_beneath _ _ Hb Hne) as [pre Hpre].
    rewrite Hx in Hpre. rewrite Hpre in Hc.
    apply Contains_false_app_l in Hc. rewrite <- app_cons in Hc.
    by apply Contains_false_app_r in Hc.
  - unfold cleanFields.
    destruct Hf as [(_&->&->&->&->)|[(_&->&->&->&->)|[(_&->&->&->&->)|(_&->&->&->&->)]]];
      by repeat split.
Qed.

End Paths.

Section Walk.
Import strings strings_facts.

Lemma beneath_refl a : beneath a a.
Proof. by left. Qed.

Lemma slashed_sep_inv a r :
  slashed a +:+ String filepath.Separator r = "/" → slashed a = EmptyString.
Proof.
  destruct (slashed a) as [|c x]; [done|]. rewrite app_cons. intros [= _ E].
  destruct x; by rewrite ?app_cons in E.
Qed.

Lemma beneath_trans a b c : beneath a b → beneath b c → beneath a c.
Proof.
  intros [->|[r ->]] Hbc; [done|]. destruct Hbc as [->|[r' ->]].
  - right. by exists r.
  - right. unfold slashed at 1.
    destruct (String.eqb_spec (slashed a +:+ String filepath.Separator r) "/")
      as [E|_].
    + apply slashed_sep_inv in E. rewrite E. by exists r'.
    + exists (r +:+ String filepath.Separator r').
      by rewrite app_assoc, app_cons.
Qed.

Lemma beneath_Join a n : beneath a (filepath.Join a n).
Proof.
  unfold filepath.Join, beneath, slashed.
  destruct (String.eqb_spec n EmptyString); [by left|].
  destruct (String.eqb_spec a "/") as [->|_]; right.
  - exists n. by rewrite app_nil_l.
  - by exists n.
Qed.

(** Induction over a tree, with the property for every entry of a
    directory at hand. *)
Lemma Entry_all_ind (P : Entry → Prop) :
  (∀ n, P (File n)) →
  (∀ n es, Forall P es → P (Directory n es)) →
  ∀ e, P e.
Proof.
  intros hf hd. fix ind 1. intros [n|n es]; [apply hf|].
  apply hd. induction es as [|c l IH]; constructor; [apply ind|apply IH].
Qed.

(** Every path the walk reports is the root or lies beneath it. *)
Lemma walk_beneath e : ∀ path, Forall (λ pd, beneath path pd.1) (walk path e).
Proof.
  induction e as [n|n es IH] using Entry_all_ind; intros path; simpl.
  - constructor; [apply beneath_refl|constructor].
  - constructor; [apply beneath_refl|].
    induction IH as [|c l Hc _ IHl]; [constructor|].
    apply Forall_app. split; [|done].
    eapply Forall_impl; [apply (Hc (filepath.Join path (entryName c)))|].
    intros pd Hpd. eapply beneath_trans; [apply beneath_Join|exact Hpd].
Qed.

End Walk.

Section Invariant.
Import strings strings_facts.

Lemma map_Forall_alter {A} (P : string → A → Prop) (f : A → A) k (m : gmap string A) :
  map_Forall P m → (∀ x, P k x → P k (f x)) → map_Forall P (alter f k m).
Proof.
  intros Hm Hf i x. rewrite lookup_alter_Some.
  intros [(-> & y & Hy & ->)|[_ Hi]]; [|by eapply Hm].
  apply Hf. by eapply Hm.
Qed.

Lemma good_emptySuite k : good k (emptySuite k).
Proof.
  split; [done|]. split; [done|]. split; [|done].
  intros n p. simpl. by rewrite lookup_empty.
Qed.

Lemma good_incRefs k su : good k su → good k (incRefs su).
Proof.
  intros (H1 & H2 & H3 & H4).
  split; [done|]. split; [exact H2|]. split; [exact H3|exact H4].
Qed.

Lemma cleanFields_mergeTest b t :
  cleanFields b → cleanFields t → cleanFields (mergeTest b t).
Proof.
  intros (?&?&?&?) (?&?&?&?). rewrite mergeTest_fields.
  unfold cleanFields, overwrite. simpl.
  repeat match goal with |- context [String.eqb ?x EmptyString] =>
    destruct (String.eqb x EmptyString) end; by repeat split.
Qed.

Lemma good_setBase k su b :
  good k su → skipped k = false →
  Dir b = k → Name b = testNameOf k → Seq b = seqOf (testNameOf k) →
  cleanFields b →
  good k (setBase b su).
Proof.
  intros (H1 & H2 & H3 & H4) Hk Hd Hn Hs Hc.
  split; [done|]. split; [by intros b' [= <-]|]. split; [exact H3|].
  congruence.
Qed.

Lemma good_addTest k su p :
  good k su → skipped k = false →
  p ≠ EmptyString → getParentPath p = k → 0 ≤ seqOf (testNameOf p) →
  good k (addTest (testNameOf p) p su).
Proof.
  intros (H1 & H2 & H3 & H4) Hk Hp Hpar Hseq.
  split; [done|]. split; [done|]. split; [|simpl; congruence].
  intros n q. simpl. rewrite lookup_insert_Some.
  intros [[<- <-]|[_ Hq]]; [done|]. by apply H3.
Qed.

(** One call of the walk function keeps every suite [good]. *)
Lemma visit_good absPath suites e suites' :
  beneath absPath e.1 →
  map_Forall good suites →
  visit absPath suites e = inr suites' →
  map_Forall good suites'.
Proof.
  intros Hb Hinv. unfold visit. destruct e as [path isDir]. simpl in Hb.
  destruct isDir.
  { intros [= <-]. apply map_Forall_insert_2; [apply good_emptySuite|done]. }
  destruct (parseTestFile absPath path false) as [test|] eqn:Hparse;
    [|by intros [= <-]].
  destruct (parseTestFile_clean _ _ _ _ Hb Hparse) as [Hskip Hclean].
  destruct (parseTestFile_Some _ _ _ _ Hparse) as (_ & _ & Hd & Hn & Hs & _).
  simpl in Hd, Hn, Hs. rewrite <- Hd in Hn, Hs.
  destruct (suites !! Dir test) as [suite|] eqn:Hsu; [|done].
  pose proof (Hinv _ _ Hsu) as Hg.
  set (base := match Base suite with Some b => mergeTest b test | None => test end).
  assert (good (Dir test) (setBase base suite)) as Hg1.
  { apply good_setBase; try done; unfold base.
    - destruct Hg as (_ & H2 & _). destruct (Base suite) as [b|]; [|done].
      rewrite mergeTest_fields. simpl. by apply H2.
    - destruct Hg as (_ & H2 & _). destruct (Base suite) as [b|]; [|done].
      rewrite mergeTest_fields. simpl. by apply H2.
    - destruct Hg as (_ & H2 & _). destruct (Base suite) as [b|]; [|done].
      rewrite mergeTest_fields. simpl. by apply H2.
    - destruct Hg as (_ & H2 & _). destruct (Base suite) as [b|]; [|done].
      apply cleanFields_mergeTest; [|done]. by apply H2. }
  assert (Seq base = seqOf (testNameOf (Dir test))) as Hseq.
  { destruct Hg1 as (_ & H2 & _). by apply (H2 base). }
  assert (map_Forall good (<[Dir test := setBase base suite]> suites)) as Hinv1.
  { by apply map_Forall_insert_2. }
  assert (Path suite = Dir test) as HP by apply Hg.
  rewrite HP.
  destruct (String.eqb_spec (Dir test) EmptyString) as [E|E]; simpl.
  { by intros [= <-]. }
  destruct (<[Dir test := setBase base suite]> suites !! getParentPath (Dir test))
    as [parent|] eqn:Hpar; [|done].
  pose proof (Hinv1 _ _ Hpar) as Hgp.
  set (parent' := if match Base suite with None => true | Some _ => false end
                  then incRefs parent else parent).
  assert (good (getParentPath (Dir test)) parent') as Hgp'.
  { unfold parent'. destruct (Base suite); [done|by apply good_incRefs]. }
  destruct (Z.leb_spec 0 (Seq base)) as [Hle|Hlt].
  - assert (map_Forall good
              (<[getParentPath (Dir test) := addTest (Name test) (Dir test) parent']>
                 (<[Dir test := setBase base suite]> suites))) as Hinv2.
    { apply map_Forall_insert_2; [|done]. rewrite Hn.
      apply good_addTest; try done.
      - by apply skipped_getParentPath.
      - by rewrite <- Hseq. }
    destruct (Base suite); intros [= <-]; [done|].
    apply map_Forall_alter; [done|]. intros x. apply good_incRefs.
  - intros [= <-]. by apply map_Forall_insert_2.
Qed.

Lemma visitAll_good absPath es : ∀ suites suites',
  Forall (λ pd, beneath absPath pd.1) es →
  map_Forall good suites →
  visitAll absPath suites es = inr suites' →
  map_Forall good suites'.
Proof.
  induction es as [|e es IH]; intros suites suites' Hb Hinv; simpl.
  - by intros [= <-].
  - apply Forall_cons in Hb as [Hb1 Hb2].
    destruct (visit absPath suites e) as [err|s1] eqn:Hv; [done|].
    apply IH; [done|]. by eapply visit_good.
Qed.

(** The suites [DiscoverTests] returns are [good], and none of them is
    left without both a base test and child tests. *)
Lemma DiscoverTests_good absPath root s :
  DiscoverTests absPath root = inr s →
  map_Forall (λ k su, good k su ∧ prunable su = false) s.
Proof.
  unfold DiscoverTests.
  destruct (visitAll absPath ∅ (walk absPath root)) as [err|suites] eqn:Hv; [done|].
  intros [= <-]. apply visitAll_good in Hv;
    [|apply walk_beneath|apply map_Forall_empty].
  intros k su Hk. apply map_lookup_filter_Some in Hk as [Hk Hp].
  split; [by eapply Hv|done].
Qed.

End Invariant.

Section Skip.
Import strings strings_facts.

Lemma HasPrefix_skipped n x :
  HasPrefix n "SKIP" = true → skipped (n +:+ x) = true.
Proof.
  intros [r ->]%HasPrefix_spec. unfold skipped. apply Contains_spec.
  exists EmptyString, (r +:+ x). by rewrite app_nil_l, app_assoc.
Qed.

Lemma skipped_Join_marked segs :
  Exists (λ n, HasPrefix n "SKIP" = true) segs →
  skipped (Join segs filepath.Separator) = true.
Proof.
  induction segs as [|x l IH]; [by intros ?%Exists_nil|].
  intros H. destruct l as [|y l].
  - apply Exists_cons in H as [H|H]; [|by apply Exists_nil in H].
    rewrite <- (app_nil_r x). by apply HasPrefix_skipped.
  - rewrite Join_cons. apply Exists_cons in H as [H|H].
    + by apply HasPrefix_skipped.
    + apply IH in H. unfold skipped in *.
      rewrite <- app_cons. by apply Contains_app_l.
Qed.

Lemma Join_app_l a n : ∃ x, filepath.Join a n = a +:+ x.
Proof.
  unfold filepath.Join. destruct (String.eqb n EmptyString).
  { exists EmptyString. by rewrite app_nil_r. }
  destruct (String.eqb a "/"); eauto.
Qed.

Lemma Contains_fullPath a l sub :
  Contains a sub = true → Contains (fullPath a l) sub = true.
Proof.
  revert a. induction l as [|n l IH]; intros a Ha; [done|].
  unfold fullPath in *. simpl. apply IH.
  destruct (Join_app_l a n) as [x ->]. by apply Contains_app_r.
Qed.

Lemma Contains_Join_marked a n :
  HasPrefix n "SKIP" = true → Contains (filepath.Join a n) "/SKIP" = true.
Proof.
  intros Hn. pose proof Hn as [r ->]%HasPrefix_spec. unfold filepath.Join.
  rewrite app_cons. simpl String.eqb.
  destruct (String.eqb_spec a "/") as [->|_].
  - apply Contains_spec. exists EmptyString, r. by rewrite app_nil_l.
  - apply Contains_app_l. apply Contains_spec. exists EmptyString, r.
    by rewrite app_nil_l.
Qed.

(** The full path of whatever lies at or beneath a directory with a
    marked element holds the marker after a separator. *)
Lemma Contains_fullPath_marked a segs rest :
  Exists (λ n, HasPrefix n "SKIP" = true) segs →
  Contains (fullPath a (segs ++ rest)) "/SKIP" = true.
Proof.
  revert a. induction segs as [|x l IH]; intros a H; [by apply Exists_nil in H|].
  apply Exists_cons in H as [H|H].
  - change (fullPath a ((x :: l) ++ rest))
      with (fullPath (filepath.Join a x) (l ++ rest)).
    by apply Contains_fullPath, Contains_Join_marked.
  - by apply (IH (filepath.Join a x)).
Qed.

End Skip.

(** C5: the suites [DiscoverTests] returns hold no suite for a relative
    path with an element that is SKIP or begins with SKIP (the marked
    directory itself or anything beneath it), and no path field of any
    base test names an entry at or beneath such a directory. *)
Theorem skipped_directories_excluded
    (absPath : string) (root : Entry) (s : Suites) (segs : list string) :
  DiscoverTests absPath root = inr s →
  Exists (λ n, strings.HasPrefix n "SKIP" = true) segs →
  s !! strings.Join segs filepath.Separator = None ∧
  ∀ k su b rest, s !! k = Some su → Base su = Some b →
                 fullPath absPath (segs ++ rest) ∉ pathFields b.
Proof.
  intros Hd Hm. pose proof (DiscoverTests_good _ _ _ Hd) as Hg. split.
  - destruct (s !! strings.Join segs filepath.Separator) as [su|] eqn:Hk; [|done].
    destruct (Hg _ _ Hk) as [(_ & _ & _ & H4) Hp].
    destruct (H4 (skipped_Join_marked _ Hm)) as [Hb Ht].
    unfold prunable in Hp. rewrite Hb, Ht in Hp. done.
  - intros k su b rest Hk Hb Hin.
    destruct (Hg _ _ Hk) as [(_ & H2 & _) _].
    destruct (H2 _ Hb) as (_ & _ & _ & (C1 & C2 & C3 & C4)).
    pose proof (Contains_fullPath_marked absPath segs rest Hm) as Hc.
    unfold pathFields in Hin.
    repeat (apply elem_of_cons in Hin as [Hin|Hin]; [congruence|]).
    by apply elem_of_nil in Hin.
Qed.

(** [skipTree]: no suite for [SKIP_old/001_x], and none of its files in
    a base test. *)
Lemma skipped_directories_excluded_witness :
  DiscoverTests "/r" skipTree = inr skipSuites ∧
  skipSuites !! "SKIP_old/001_x" = None ∧
  ∀ k su b rest, skipSuites !! k = Some su → Base su = Some b →
                 fullPath "/r" (["SKIP_old"; "001_x"] ++ rest) ∉ pathFields b.
Proof.
  assert (DiscoverTests "/r" skipTree = inr skipSuites) as Hd.
  { unfold skipSuites, discovered.
    assert (succeeds "/r" skipTree = true) as Hs by (by vm_compute).
    unfold succeeds in Hs. by destruct (DiscoverTests "/r" skipTree). }
  split; [exact Hd|].
  apply (skipped_directories_excluded "/r" skipTree skipSuites
           ["SKIP_old"; "001_x"] Hd).
  apply Exists_cons. left. by vm_compute.
Defined.

Example skipTree_suites :
  map fst (map_to_list skipSuites) = ["001_a"; EmptyString].
Proof. by vm_compute. Qed.

(** ** What the discovered suites register as children *)

Section Registered.
Context {rt : GoRuntime}.

(** In discovered suites a child test that [run] collects is sequenced
    and carries the path it is registered under. *)
Lemma discovered_child absPath root s k su m t :
  DiscoverTests absPath root = inr s →
  s !! k = Some su → t ∈ childTests s su m →
  0 ≤ Seq t ∧ ∃ n, Tests su !! n = Some (Dir t) ∧ collectChild s m (Dir t) = Some t.
Proof.
  intros Hd Hk Hin. pose proof (DiscoverTests_good _ _ _ Hd) as Hg.
  apply childTests_elem in Hin as (n & p & Hn & Hc).
  pose proof Hc as (child & Hp & Hb & _)%collectChild_Some.
  destruct (Hg _ _ Hk) as [(_ & _ & H3 & _) _].
  destruct (H3 _ _ Hn) as (_ & Hseq & _ & _).
  destruct (Hg _ _ Hp) as [(_ & H2 & _) _].
  destruct (H2 _ Hb) as (HDir & _ & HSeq & _).
  rewrite HSeq, HDir. split; [done|]. by exists n.
Qed.

End Registered.

(** C6, as the code has it: [run] emits, after the tests of the parent
    path, the suite's base test and then its child tests, in which no
    sequenced test follows one without a sequence number and the tests
    without one are in ascending order of name.  In the suites that
    [DiscoverTests] builds, however, only sequenced directories are
    registered as children: every child test emitted is sequenced, and
    the directories without a numeric prefix are not emitted among the
    children of their parent at all. *)
Theorem children_sequenced_first_then_by_name `{rt : GoRuntime} :
  (∀ s p su m, s !! p = Some su →
     ∃ pre, run s p m = pre ++ baseTest su ++ childTests s su m) ∧
  (∀ s su m l1 a l2 b l3,
     childTests s su m = l1 ++ a :: l2 ++ b :: l3 →
     (Seq a < 0 → Seq b < 0 ∧ String.le (Name a) (Name b)) ∧
     (0 ≤ Seq b → 0 ≤ Seq a ∧ Seq a ≤ Seq b)) ∧
  (∀ absPath root s k su m t,
     DiscoverTests absPath root = inr s → s !! k = Some su →
     t ∈ childTests s su m → 0 ≤ Seq t).
Proof.
  split; [|split].
  - intros s p su m Hp. rewrite run_eq, Hp. eauto.
  - intros s su m l1 a l2 b l3 E.
    destruct (childTests_order _ _ _ _ _ _ _ _ E) as [?|[?|(?&?&?)]];
      split; intros; try lia; done.
  - intros absPath root s k su m t Hd Hk Hin.
    by destruct (discovered_child _ _ _ _ _ _ _ Hd Hk Hin).
Qed.

(** C6 as stated fails: in the suites discovered for [scenario] the
    directory [Extra], which has no numeric prefix and both fixtures,
    is a suite with a valid base test, and the ordering of its parent,
    the root, ends with the sequenced siblings and does not emit it. *)
Lemma unsequenced_sibling_not_emitted :
  succeeds "/r" scenario = true ∧
  Base <$> scenarioSuites !! "Extra" = Some (Some (fixture "/r" "Extra" "Extra" (-1))) ∧
  IsValid (fixture "/r" "Extra" "Extra" (-1)) = true ∧
  getParentPath "Extra" = EmptyString ∧
  map Dir (GetOrderedTests scenarioSuites EmptyString)
    = [EmptyString; "001_First"; "002_Second"] ∧
  fixture "/r" "Extra" "Extra" (-1) ∉ GetOrderedTests scenarioSuites EmptyString.
Proof.
  repeat split; try by vm_compute.
  intros Hin. apply (list_elem_of_fmap_2 Dir) in Hin. vm_compute in Hin.
  repeat (apply elem_of_cons in Hin as [Hin|Hin]; [discriminate Hin|]).
  by apply elem_of_nil in Hin.
Qed.

(** ** Emission counts and entry points *)

Section Counting.

Lemma NoDup_fmap_omap {A B C} (g : A → C) (h : B → C) (f : A → option B) (l : list A) :
  (∀ x y, f x = Some y → h y = g x) →
  NoDup (g <$> l) → NoDup (h <$> omap f l).
Proof.
  intros Hf. induction l as [|x l IH]; simpl; [constructor|].
  intros [Hx Hl]%NoDup_cons. destruct (f x) as [y|] eqn:E; simpl; [|by apply IH].
  apply NoDup_cons. split; [|by apply IH].
  intros Hin. apply Hx. apply list_elem_of_fmap in Hin as (y' & Hy' & Hin).
  apply list_elem_of_omap in Hin as (x' & Hx' & E').
  apply list_elem_of_fmap. exists x'. split; [|done].
  by rewrite <- (Hf _ _ E), Hy', (Hf _ _ E').
Qed.

Lemma StronglySorted_strict {A} (R R' : relation A) (l : list A) :
  (∀ a b, R a b → a ≠ b → R' a b) →
  StronglySorted R l → NoDup l → StronglySorted R' l.
Proof.
  intros HR. induction 1 as [|a l Hs IH Ha]; [constructor|].
  intros [Hnin Hnd]%NoDup_cons. constructor; [by apply IH|].
  rewrite Forall_forall in Ha |- *. intros b Hb. apply HR; [by apply Ha|].
  by intros ->.
Qed.

Lemma le_ne_ltb a b : String.le a b → a ≠ b → String.ltb a b = true.
Proof.
  unfold String.le, String.leb, String.ltb. intros Hle Hne.
  destruct (String.compare a b) eqn:E; try done.
  by apply String.compare_eq_iff in E.
Qed.

Context {rt : GoRuntime}.

Lemma RunnableSuitePaths_perm (s : Suites) :
  RunnableSuitePaths s ≡ₚ
  omap (λ kv : string * Suite,
          if (0 <? refs kv.2) && (size (Tests kv.2) =? 0)%nat
          then None else Some kv.1) (map_to_list s).
Proof.
  unfold RunnableSuitePaths. rewrite sort_Slice_perm.
  apply omap_Permutation, range_map_perm.
Qed.

Lemma RunnableSuitePaths_elem (s : Suites) p :
  p ∈ RunnableSuitePaths s ↔
  ∃ su, s !! p = Some su ∧ ¬ (0 < refs su ∧ Tests su = ∅).
Proof.
  rewrite RunnableSuitePaths_perm, list_elem_of_omap. split.
  - intros [[k su] [Hin Hf]]. apply elem_of_map_to_list in Hin. simpl in Hf.
    destruct (Z.ltb_spec 0 (refs su)) as [Hr|Hr];
      destruct (Nat.eqb_spec (size (Tests su)) 0) as [Hs|Hs];
      simpl in Hf; simplify_eq; exists su; split; try done.
    + intros [_ Ht]. apply Hs. by apply map_size_empty_iff.
    + intros [? _]. lia.
    + intros [? _]. lia.
  - intros (su & Hp & Hn). exists (p, su). split; [by apply elem_of_map_to_list|].
    simpl. destruct (Z.ltb_spec 0 (refs su)) as [Hr|Hr]; [|done].
    destruct (Nat.eqb_spec (size (Tests su)) 0) as [Hs|Hs]; [|done].
    exfalso. apply Hn. split; [done|]. by apply map_size_empty_iff.
Qed.

Lemma RunnableSuitePaths_NoDup (s : Suites) : NoDup (RunnableSuitePaths s).
Proof.
  rewrite RunnableSuitePaths_perm. rewrite <- (list_fmap_id (omap _ _)).
  apply (NoDup_fmap_omap fst).
  - intros [k su] y. simpl. destruct (_ && _); by intros [= <-].
  - apply NoDup_fst_map_to_list.
Qed.

Lemma RunnableSuitePaths_sorted (s : Suites) :
  StronglySorted (λ a b, String.ltb a b = true) (RunnableSuitePaths s).
Proof.
  assert (StronglySorted (notAfter String.ltb) (RunnableSuitePaths s)) as Hs.
  { apply sort_Slice_sorted; apply _. }
  eapply StronglySorted_strict; [|exact Hs|apply RunnableSuitePaths_NoDup].
  intros a b Hab Hne. apply le_ne_ltb; [|done]. by apply ltb_notAfter.
Qed.

End Counting.

(** C3, as the code has it: [RunnableSuitePaths] returns exactly the
    paths of the suites that are not both referenced ([refs] above 0)
    and without child tests, in strictly ascending byte order, so
    without duplicates.  The root path is returned under that same
    rule, when the root is a suite of the map. *)
Theorem runnable_paths_exact_sorted `{rt : GoRuntime} (s : Suites) :
  (∀ p, p ∈ RunnableSuitePaths s ↔
        ∃ su, s !! p = Some su ∧ ¬ (0 < refs su ∧ Tests su = ∅)) ∧
  StronglySorted (λ a b, String.ltb a b = true) (RunnableSuitePaths s) ∧
  NoDup (RunnableSuitePaths s).
Proof.
  split; [|split].
  - apply RunnableSuitePaths_elem.
  - apply RunnableSuitePaths_sorted.
  - apply RunnableSuitePaths_NoDup.
Qed.

(** C3 as stated fails: the root path is not always returned.  For
    [orphanTree] the root suite is removed after the walk; for
    [extraTree] the root is a suite with a valid base test, holds a
    reference count of 1 and no child tests, and is left out. *)
Lemma root_not_always_runnable :
  succeeds "/r" orphanTree = true ∧
  orphanSuites !! EmptyString = None ∧
  RunnableSuitePaths orphanSuites = ["a"; "a/b/c"] ∧
  succeeds "/r" extraTree = true ∧
  (baseTest <$> extraSuites !! EmptyString)
    = Some [mkTest EmptyString EmptyString "/r" (-1)
              "/r/request.gql" "/r/response.json" EmptyString EmptyString] ∧
  refs <$> extraSuites !! EmptyString = Some 1 ∧
  RunnableSuitePaths extraSuites = ["Extra"].
Proof. repeat split; by vm_compute. Qed.

Section RootRun.
Context {rt : GoRuntime}.

Lemma run_root s m :
  run s EmptyString m =
  match s !! EmptyString with
  | None => []
  | Some su => baseTest su ++ childTests s su m
  end.
Proof. rewrite run_eq. by destruct (s !! EmptyString). Qed.

Lemma discovered_children_NoDup absPath root s k su m :
  DiscoverTests absPath root = inr s → s !! k = Some su →
  NoDup (Dir <$> childTests s su m).
Proof.
  intros Hd Hk. pose proof (DiscoverTests_good _ _ _ Hd) as Hg.
  destruct (Hg _ _ Hk) as [(_ & _ & H3 & _) _].
  rewrite childTests_perm. apply (NoDup_fmap_omap snd).
  - intros [n p] t. simpl. intros (child & Hp & Hb & _)%collectChild_Some.
    destruct (Hg _ _ Hp) as [(_ & H2 & _) _]. by destruct (H2 _ Hb).
  - apply NoDup_fmap_2_strong; [|apply NoDup_map_to_list].
    intros [n1 p1] [n2 p2] H1%elem_of_map_to_list H2%elem_of_map_to_list.
    simpl. intros <-. f_equal.
    destruct (H3 _ _ H1) as [-> _]. by destruct (H3 _ _ H2) as [-> _].
Qed.

End RootRun.

(** C2, as the code has it: started at the root of suites that
    [DiscoverTests] built, [run] emits no relative path twice, and it
    emits the path [d] exactly when the suite of [d] has a valid base
    test and [d] is the root or is registered among the child tests of
    the root, within [maxSeq].  A directory with both fixtures that is
    neither (one without a numeric prefix, one nested deeper) is not
    emitted. *)
Theorem root_run_emits_once `{rt : GoRuntime}
    (absPath : string) (root : Entry) (s : Suites) (m : Z) :
  DiscoverTests absPath root = inr s →
  NoDup (Dir <$> run s EmptyString m) ∧
  ∀ d, d ∈ (Dir <$> run s EmptyString m) ↔
       ∃ su b, s !! d = Some su ∧ Base su = Some b ∧ IsValid b = true ∧
               (d = EmptyString ∨
                ∃ rootSuite n, s !! EmptyString = Some rootSuite ∧
                               Tests rootSuite !! n = Some d ∧
                               ¬ (0 ≤ m ∧ 0 ≤ Seq b ∧ m < Seq b)).
Proof.
  intros Hd. pose proof (DiscoverTests_good _ _ _ Hd) as Hg.
  rewrite run_root. destruct (s !! EmptyString) as [su0|] eqn:H0.
  - destruct (Hg _ _ H0) as [(_ & H2 & H3 & _) _].
    assert (∀ t, t ∈ baseTest su0 → Dir t = EmptyString) as Hbase.
    { intros t [Hb _]%baseTest_elem. by destruct (H2 _ Hb). }
    assert (∀ t, t ∈ childTests s su0 m → Dir t ≠ EmptyString) as Hchild.
    { intros t Hin.
      destruct (discovered_child _ _ _ _ _ _ _ Hd H0 Hin) as (_ & n & Hn & _).
      by destruct (H3 _ _ Hn) as (_ & _ & ? & _). }
    split.
    + rewrite fmap_app. apply NoDup_app. split; [|split].
      * unfold baseTest. destruct (Base su0) as [b|]; [|constructor].
        destruct (IsValid b); [apply NoDup_singleton|constructor].
      * intros d (t & -> & Ht)%list_elem_of_fmap (t' & E & Ht')%list_elem_of_fmap.
        apply (Hchild _ Ht'). by rewrite <- E, (Hbase _ Ht).
      * by eapply discovered_children_NoDup.
    + intros d. rewrite fmap_app, elem_of_app, !list_elem_of_fmap. split.
      * intros [(t & -> & Ht)|(t & -> & Ht)].
        -- rewrite (Hbase _ Ht). apply baseTest_elem in Ht as [Hb Hv].
           exists su0, t. repeat split; try done. by left.
        -- destruct (discovered_child _ _ _ _ _ _ _ Hd H0 Ht) as (_ & n & Hn & Hc).
           apply collectChild_Some in Hc as (child & Hp & Hb & Hv & Hlim).
           exists child, t. repeat split; try done. right. by exists su0, n.
      * intros (su & b & Hs & Hb & Hv & [->|(r & n & Hr & Hn & Hlim)]).
        -- left. exists b. simplify_eq. split.
           ++ by destruct (H2 _ Hb).
           ++ by apply baseTest_elem.
        -- right. exists b. simplify_eq. split.
           ++ destruct (Hg _ _ Hs) as [(_ & H2' & _) _]. by destruct (H2' _ Hb).
           ++ apply childTests_elem. exists n, d. split; [done|].
              apply collectChild_Some. by exists su.
  - split; [constructor|]. intros d. rewrite fmap_nil, elem_of_nil. split; [done|].
    intros (su & b & Hs & _ & _ & [->|(r & n & Hr & _)]); congruence.
Qed.

(** The scenario, started at the root with a limit of 1. *)
Lemma root_run_emits_once_witness :
  DiscoverTests "/r" scenario = inr scenarioSuites ∧
  NoDup (Dir <$> run scenarioSuites EmptyString 1) ∧
  ∀ d, d ∈ (Dir <$> run scenarioSuites EmptyString 1) ↔
       ∃ su b, scenarioSuites !! d = Some su ∧ Base su = Some b ∧ IsValid b = true ∧
               (d = EmptyString ∨
                ∃ rootSuite n, scenarioSuites !! EmptyString = Some rootSuite ∧
                               Tests rootSuite !! n = Some d ∧
                               ¬ (0 ≤ 1 ∧ 0 ≤ Seq b ∧ 1 < Seq b)).
Proof.
  assert (DiscoverTests "/r" scenario = inr scenarioSuites) as Hd.
  { unfold scenarioSuites, discovered.
    assert (succeeds "/r" scenario = true) as Hs by (by vm_compute).
    unfold succeeds in Hs. by destruct (DiscoverTests "/r" scenario). }
  split; [exact Hd|].
  exact (root_run_emits_once "/r" scenario scenarioSuites 1 Hd).
Defined.

(** C2 as stated fails both ways.  In the suites discovered for
    [nestedTree] the directory [a/001_b/002_c] holds both fixtures and
    its suite a valid base test, and the ordering started at the root
    emits only the root's own test; started at [a/001_b] the ordering
    emits the test of [a/001_b] twice, as child test of [a] and as base
    test of the start path. *)
Lemma valid_case_emitted_zero_or_two_times :
  succeeds "/r" nestedTree = true ∧
  (baseTest <$> nestedSuites !! "a/001_b/002_c")
    = Some [fixture "/r" "002_c" "a/001_b/002_c" 2] ∧
  Dir <$> GetOrderedTests nestedSuites EmptyString = [EmptyString] ∧
  Dir <$> GetOrderedTests nestedSuites "a/001_b"
    = ["a"; "a/001_b"; "a/001_b"; "a/001_b/002_c"].
Proof. repeat split; by vm_compute. Qed.

(** ** The name and the place of a parsed test *)

Section Names.
Import strings strings_facts.

Lemma HasPrefix_single c n d :
  HasPrefix (String c n) (String d EmptyString) = Ascii.eqb d c.
Proof.
  change (HasPrefix (String c n) (String d EmptyString))
    with (if Ascii.eqb d c then HasPrefix n EmptyString else false).
  destruct (Ascii.eqb d c); [by destruct n|done].
Qed.

Lemma sepFree_cons c n :
  Contains (String c n) "/" = false →
  Ascii.eqb c filepath.Separator = false ∧ Contains n "/" = false.
Proof.
  rewrite Contains_cons. intros [H1 H2]%orb_false_iff. split; [|done].
  rewrite HasPrefix_single in H1. by rewrite Ascii.eqb_sym.
Qed.

Lemma Split_sepFree n :
  Contains n "/" = false → Split n filepath.Separator = [n].
Proof.
  induction n as [|c n IH]; [done|].
  intros [Hc Hn]%sepFree_cons. simpl. by rewrite Hc, (IH Hn).
Qed.

Lemma Split_app_sepFree n r :
  Contains n "/" = false →
  Split (n +:+ String filepath.Separator r) filepath.Separator
  = n :: Split r filepath.Separator.
Proof.
  induction n as [|c n IH]; [done|].
  intros [Hc Hn]%sepFree_cons. rewrite app_cons. simpl. by rewrite Hc, (IH Hn).
Qed.

Lemma Split_Join l :
  l ≠ [] → Forall (λ n, Contains n "/" = false) l →
  Split (Join l filepath.Separator) filepath.Separator = l.
Proof.
  induction l as [|x l IH]; [done|]. intros _ [Hx Hl]%Forall_cons.
  destruct l as [|y l]; [by apply Split_sepFree|].
  rewrite Join_cons, Split_app_sepFree by done. f_equal. by apply IH.
Qed.

Lemma validName_sepFree l :
  Forall validName l → Forall (λ n, Contains n "/" = false) l.
Proof. intros H. eapply Forall_impl; [exact H|]. by intros n (_ & _ & ?). Qed.

Lemma Join_valid_head l :
  l ≠ [] → Forall validName l →
  ∃ c r, Join l filepath.Separator = String c r ∧
         Ascii.eqb c filepath.Separator = false.
Proof.
  destruct l as [|x l]; [done|]. intros _ [(Hne & _ & Hx) _]%Forall_cons.
  destruct x as [|c x]; [done|]. apply sepFree_cons in Hx as [Hc _].
  destruct l as [|y l].
  - by exists c, x.
  - rewrite Join_cons, app_cons. eauto.
Qed.

(** The full path of an entry, by the names that lead to it. *)
Lemma fullPath_Join absPath l :
  l ≠ [] → Forall validName l →
  fullPath absPath l =
  slashed absPath +:+ String filepath.Separator (Join l filepath.Separator).
Proof.
  induction l as [|y l IH] using rev_ind; [done|].
  intros _ [Hl [(Hy & _ & _) _]%Forall_cons]%Forall_app.
  unfold fullPath in *. rewrite foldl_app. simpl.
  unfold filepath.Join at 1.
  destruct (String.eqb_spec y EmptyString) as [?|_]; [done|].
  destruct l as [|x l].
  - simpl. unfold slashed. destruct (String.eqb_spec absPath "/") as [->|_]; [|done].
    by rewrite app_nil_l.
  - rewrite IH by done.
    destruct (String.eqb_spec
                (slashed absPath +:+
                 String filepath.Separator (Join (x :: l) filepath.Separator)) "/")
      as [E|_].
    + destruct (Join_valid_head (x :: l)) as (c & r & Ej & _); [done..|].
      rewrite Ej in E. destruct (slashed absPath) as [|d sl].
      * by rewrite app_nil_l in E.
      * rewrite app_cons in E. injection E as _ E. by destruct sl.
    + rewrite Join_snoc by done. by rewrite !app_assoc, !app_cons.
Qed.

(** The relative path of such an entry is its names, joined. *)
Lemma Rel_fullPath absPath l :
  l ≠ [] → Forall validName l →
  filepath.Rel absPath (fullPath absPath l) = Join l filepath.Separator.
Proof.
  intros Hne Hl. rewrite fullPath_Join by done.
  destruct (Join_valid_head l Hne Hl) as (c & r & Ej & Hc).
  unfold filepath.Rel, slashed.
  destruct (String.eqb_spec absPath "/") as [->|Hroot].
  - rewrite app_nil_l, Ej. simpl. by rewrite Hc.
  - rewrite eqb_app_cons, drop_app. by rewrite Ascii.eqb_refl.
Qed.

Lemma testNameOf_Join segs :
  Forall validName segs →
  testNameOf (Join segs filepath.Separator) = List.last segs EmptyString.
Proof.
  intros Hv. destruct segs as [|x l]; [done|].
  unfold testNameOf. rewrite Split_Join; [|done|by apply validName_sepFree].
  assert (List.last (x :: l) EmptyString ≠ EmptyString) as Hlast.
  { assert (List.In (List.last (x :: l) EmptyString) (x :: l)) as Hin.
    { destruct (exists_last (l := x :: l)) as (l' & a & ->); [done|].
      rewrite last_last. apply in_or_app. right. by left. }
    apply list_elem_of_In in Hin. rewrite Forall_forall in Hv.
    by destruct (Hv _ Hin). }
  destruct l as [|y l].
  - apply Forall_cons in Hv as [(Hx & _) _].
    destruct (String.eqb_spec x EmptyString) as [?|_]; [done|].
    simpl. by destruct (String.eqb_spec x EmptyString).
  - destruct (String.eqb_spec (List.last (x :: y :: l) EmptyString) EmptyString);
      done.
Qed.

Lemma Dir_Join segs file :
  Forall validName segs → validName file →
  (if String.eqb (filepath.Dir (Join (segs ++ [file]) filepath.Separator)) "."
   then EmptyString
   else filepath.Dir (Join (segs ++ [file]) filepath.Separator))
  = Join segs filepath.Separator ∧
  filepath.Base (Join (segs ++ [file]) filepath.Separator) = file.
Proof.
  intros Hs Hf.
  assert (Forall validName (segs ++ [file])) as Hall.
  { apply Forall_app. split; [done|]. by apply Forall_singleton. }
  assert (segs ++ [file] ≠ []) as Hne by (by destruct segs).
  unfold filepath.Dir, filepath.Base.
  rewrite Split_Join; [|done|by apply validName_sepFree].
  rewrite removelast_last, last_last. split.
  - destruct segs as [|x l]; [done|].
    destruct (String.eqb_spec (Join (x :: l) filepath.Separator) ".") as [E|_];
      [|done].
    exfalso. apply (f_equal (λ p, Split p filepath.Separator)) in E.
    rewrite Split_Join in E; [|done|by apply validName_sepFree].
    simpl in E. injection E as -> _.
    apply Forall_cons in Hs as [(_ & Hdot & _) _]. done.
  - destruct (Join_valid_head _ Hne Hall) as (c & r & -> & _). done.
Qed.

End Names.

(** C9, as the code has it: the test parsed from a fixture file takes
    the last element of the directory's relative path as its name,
    unchanged (a numeric prefix stays in the name, and the root
    directory gives the empty name); the sequence number is read off
    that name. *)
Theorem test_name_is_directory_name
    (absPath : string) (segs : list string) (file : string) :
  Forall validName segs →
  file ∈ fixtureNames →
  strings.Contains (fullPath absPath (segs ++ [file])) "/SKIP" = false →
  ∃ t, parseTestFile absPath (fullPath absPath (segs ++ [file])) false = Some t ∧
       Name t = List.last segs EmptyString ∧
       Dir t = strings.Join segs filepath.Separator ∧
       Seq t = seqOf (List.last segs EmptyString).
Proof.
  intros Hs Hf Hskip.
  assert (validName file) as Hfile.
  { unfold fixtureNames in Hf.
    repeat (apply elem_of_cons in Hf as [->|Hf]; [by repeat split|]).
    by apply elem_of_nil in Hf. }
  assert (Forall validName (segs ++ [file])) as Hall.
  { apply Forall_app. split; [done|]. by apply Forall_singleton. }
  assert (segs ++ [file] ≠ []) as Hne by (by destruct segs).
  destruct (Dir_Join segs file Hs Hfile) as [HDir HBase].
  unfold parseTestFile. rewrite Hskip, Rel_fullPath by done.
  rewrite HDir, HBase, testNameOf_Join by done.
  unfold fixtureNames in Hf.
  repeat (apply elem_of_cons in Hf as [->|Hf]; [simpl; eauto|]).
  by apply elem_of_nil in Hf.
Qed.

(** The response fixture of the directory [a/001_First]. *)
Lemma test_name_is_directory_name_witness :
  ∃ t, parseTestFile "/r" (fullPath "/r" (["a"; "001_First"] ++ ["response.json"])) false
       = Some t ∧
       Name t = List.last ["a"; "001_First"] EmptyString ∧
       Dir t = strings.Join ["a"; "001_First"] filepath.Separator ∧
       Seq t = seqOf (List.last ["a"; "001_First"] EmptyString).
Proof.
  apply (test_name_is_directory_name "/r" ["a"; "001_First"] "response.json").
  - repeat constructor; by vm_compute.
  - unfold fixtureNames. apply list_elem_of_further, list_elem_of_here.
  - by vm_compute.
Defined.

(** C9 as stated fails: the directory [001_First] gives a test named
    [001_First], not [First]; the prefix is read as sequence number 1
    and stays in the name. *)
Lemma test_name_keeps_prefix :
  Name <$> parseTestFile "/r" "/r/001_First/request.gql" false = Some "001_First" ∧
  Seq <$> parseTestFile "/r" "/r/001_First/request.gql" false = Some 1 ∧
  Name <$> (scenarioSuites !! "001_First" ≫= Base) = Some "001_First".
Proof. repeat split; by vm_compute. Qed.

(** ** The fragments of one directory *)

Section Fragments.
Import strings strings_facts.

(** Every fragment of a directory carries the directory's name, paths
    and sequence number, and sets one field, to the path of its file. *)
Lemma fragment_ownFields absPath segs t :
  Forall validName segs → fragment absPath segs t → ownFields absPath segs t.
Proof.
  intros Hs (file & Hf & Hp).
  assert (Forall validName (segs ++ [file])) as Hall.
  { apply Forall_app. split; [done|]. by apply Forall_singleton. }
  assert (segs ++ [file] ≠ []) as Hne by (by destruct segs).
  destruct (Dir_Join segs file Hs Hf) as [HDir HBase].
  apply parseTestFile_Some in Hp as (_ & _ & Hd & Hn & Hq & Ha & Hfields).
  rewrite Rel_fullPath in Hd, Hn, Hq, Ha, Hfields by done.
  rewrite HDir in Hd, Hn, Hq, Ha. rewrite HBase in Hfields.
  rewrite testNameOf_Join in Hn, Hq by done.
  unfold ownFields. rewrite Hd, Hn, Hq, Ha.
  destruct Hfields as [(-> & -> & -> & -> & ->)|[(-> & -> & -> & -> & ->)|
    [(-> & -> & -> & -> & ->)|(-> & -> & -> & -> & ->)]]]; auto 10.
Qed.

Lemma ownFields_compatible absPath segs a b :
  ownFields absPath segs a → ownFields absPath segs b → compatible a b.
Proof.
  intros (A1 & A2 & A3 & A4 & A5 & A6 & A7 & A8)
         (B1 & B2 & B3 & B4 & B5 & B6 & B7 & B8).
  unfold compatible, agree. rewrite A1, A2, A3, A4, B1, B2, B3, B4.
  repeat split;
    [destruct A5, B5|destruct A6, B6|destruct A7, B7|destruct A8, B8];
    auto; right; right; congruence.
Qed.

Lemma ownFields_mergeTest absPath segs a b :
  ownFields absPath segs a → ownFields absPath segs b →
  ownFields absPath segs (mergeTest a b).
Proof.
  intros (A1 & A2 & A3 & A4 & A5 & A6 & A7 & A8)
         (B1 & B2 & B3 & B4 & B5 & B6 & B7 & B8).
  rewrite mergeTest_fields. unfold ownFields, overwrite. simpl.
  repeat split; try done;
    match goal with
    | |- context [String.eqb ?x EmptyString] =>
        destruct (String.eqb_spec x EmptyString)
    end; auto.
Qed.

Lemma ownFields_foldl absPath segs l : ∀ t,
  ownFields absPath segs t → Forall (ownFields absPath segs) l →
  ownFields absPath segs (foldl mergeTest t l).
Proof.
  induction l as [|x l IH]; intros t Ht Hl; [done|].
  apply Forall_cons in Hl as [Hx Hl]. simpl.
  apply IH; [by apply ownFields_mergeTest|done].
Qed.

(** Between two values of which each is unset or the one path of the
    field, writing the later over the earlier keeps the first that is
    set. *)
Lemma overwrite_first x y v :
  x = EmptyString ∨ x = v → y = EmptyString ∨ y = v →
  overwrite x y = firstNonEmpty x y.
Proof.
  unfold overwrite, firstNonEmpty.
  destruct (String.eqb_spec x EmptyString), (String.eqb_spec y EmptyString);
    intros [?|?] [?|?]; congruence.
Qed.

Lemma ownFields_first_wins absPath segs dst src :
  ownFields absPath segs dst → ownFields absPath segs src →
  Request (mergeTest dst src) = firstNonEmpty (Request dst) (Request src) ∧
  Response (mergeTest dst src) = firstNonEmpty (Response dst) (Response src) ∧
  Variables (mergeTest dst src) = firstNonEmpty (Variables dst) (Variables src) ∧
  Transform (mergeTest dst src) = firstNonEmpty (Transform dst) (Transform src).
Proof.
  intros (_ & _ & _ & _ & A5 & A6 & A7 & A8) (_ & _ & _ & _ & B5 & B6 & B7 & B8).
  rewrite mergeTest_fields. simpl.
  repeat split; by eapply overwrite_first.
Qed.

End Fragments.

(** C8: the merge of the fragments that [parseTestFile] gives for the
    files of one directory is associative and commutative, the base
    test merged from them is the same for every order in which the
    files are visited, and per field the first non-empty value wins: a
    field that is set keeps its value when a later fragment of the
    directory is merged in. *)
Theorem mergeTest_fragments_commute_first_wins
    (absPath : string) (segs : list string) :
  Forall validName segs →
  (∀ a b c, mergeTest (mergeTest a b) c = mergeTest a (mergeTest b c)) ∧
  (∀ a b, fragment absPath segs a → fragment absPath segs b →
          mergeTest a b = mergeTest b a) ∧
  (∀ l1 l2, Forall (fragment absPath segs) l1 → l1 ≡ₚ l2 →
            mergeAll l1 = mergeAll l2) ∧
  (∀ t l src,
     Forall (fragment absPath segs) (t :: l) → fragment absPath segs src →
     let dst := foldl mergeTest t l in
     Request (mergeTest dst src) = firstNonEmpty (Request dst) (Request src) ∧
     Response (mergeTest dst src) = firstNonEmpty (Response dst) (Response src) ∧
     Variables (mergeTest dst src) = firstNonEmpty (Variables dst) (Variables src) ∧
     Transform (mergeTest dst src) = firstNonEmpty (Transform dst) (Transform src)).
Proof.
  intros Hs. split; [apply mergeTest_assoc|]. split; [|split].
  - intros a b Ha Hb. apply mergeTest_comm.
    apply (ownFields_compatible absPath segs); by apply fragment_ownFields.
  - intros l1 l2 Hl Hp. apply mergeAll_perm; [done|].
    rewrite Forall_forall in Hl. intros a b Ha Hb.
    apply (ownFields_compatible absPath segs); apply fragment_ownFields; auto.
  - intros t l src [Ht Hl]%Forall_cons Hsrc dst.
    apply (ownFields_first_wins absPath segs); [|by apply fragment_ownFields].
    apply ownFields_foldl; [by apply fragment_ownFields|].
    eapply Forall_impl; [exact Hl|]. intros x Hx. by apply fragment_ownFields.
Qed.

(** The request and the response file of the directory [a/001_First]
    give fragments of that directory; merged in either order they give
    the same test, with both fields set. *)
Lemma fragments_of_a_directory :
  let rq := mkTest "001_First" "a/001_First" "/r/a/001_First" 1
              "/r/a/001_First/request.gql" EmptyString EmptyString EmptyString in
  let rs := mkTest "001_First" "a/001_First" "/r/a/001_First" 1
              EmptyString "/r/a/001_First/response.json" EmptyString EmptyString in
  fragment "/r" ["a"; "001_First"] rq ∧ fragment "/r" ["a"; "001_First"] rs ∧
  mergeTest rq rs = mergeTest rs rq ∧ IsValid (mergeTest rq rs) = true.
Proof.
  intros rq rs. split; [|split; [|split]].
  - exists "request.gql". split; [by repeat split|]. vm_compute. reflexivity.
  - exists "response.json". split; [by repeat split|]. vm_compute. reflexivity.
  - vm_compute. reflexivity.
  - vm_compute. reflexivity.
Qed.

Lemma mergeTest_fragments_commute_first_wins_witness :
  (∀ a b c, mergeTest (mergeTest a b) c = mergeTest a (mergeTest b c)) ∧
  (∀ a b, fragment "/r" ["a"; "001_First"] a → fragment "/r" ["a"; "001_First"] b →
          mergeTest a b = mergeTest b a) ∧
  (∀ l1 l2, Forall (fragment "/r" ["a"; "001_First"]) l1 → l1 ≡ₚ l2 →
            mergeAll l1 = mergeAll l2) ∧
  (∀ t l src,
     Forall (fragment "/r" ["a"; "001_First"]) (t :: l) →
     fragment "/r" ["a"; "001_First"] src →
     let dst := foldl mergeTest t l in
     Request (mergeTest dst src) = firstNonEmpty (Request dst) (Request src) ∧
     Response (mergeTest dst src) = firstNonEmpty (Response dst) (Response src) ∧
     Variables (mergeTest dst src) = firstNonEmpty (Variables dst) (Variables src) ∧
     Transform (mergeTest dst src) = firstNonEmpty (Transform dst) (Transform src)).
Proof.
  apply (mergeTest_fragments_commute_first_wins "/r" ["a"; "001_First"]).
  repeat constructor; by vm_compute.
Defined.

(** ** The walk files a directory under its joined names *)

Section Keys.
Import strings strings_facts.

Lemma relKey_fullPath absPath segs :
  Forall validName segs →
  relKey absPath (fullPath absPath segs) = Join segs filepath.Separator.
Proof.
  intros Hs. unfold relKey. destruct segs as [|x l].
  - simpl. unfold filepath.Rel. by rewrite String.eqb_refl.
  - rewrite Rel_fullPath by done.
    destruct (String.eqb_spec (Join (x :: l) filepath.Separator) ".") as [E|_];
      [|done].
    exfalso. apply (f_equal (λ p, Split p filepath.Separator)) in E.
    rewrite Split_Join in E; [|done|by apply validName_sepFree].
    simpl in E. injection E as -> _.
    apply Forall_cons in Hs as [(_ & Hdot & _) _]. done.
Qed.

End Keys.

(** ** The walk finds the suite of every fixture *)

Section Success.
Import strings strings_facts.

Lemma getParentPath_Join l x :
  Forall validName (l ++ [x]) →
  getParentPath (Join (l ++ [x]) filepath.Separator) = Join l filepath.Separator.
Proof.
  intros Hv. assert (l ++ [x] ≠ []) as Hne by (by destruct l).
  destruct (Join_valid_head _ Hne Hv) as (c & r & E & _).
  unfold getParentPath. rewrite E. simpl String.eqb. rewrite <- E.
  rewrite Split_Join; [|done|by apply validName_sepFree].
  rewrite removelast_last, List.length_app. simpl.
  destruct l as [|y l]; [done|]. simpl.
  by destruct (length l + 1)%nat eqn:El; [lia|].
Qed.

Lemma visit_dom absPath suites e suites' k :
  visit absPath suites e = inr suites' →
  is_Some (suites !! k) → is_Some (suites' !! k).
Proof.
  unfold visit. destruct e as [path isDir]. intros Hv Hk. destruct isDir.
  { injection Hv as <-. apply lookup_insert_is_Some'. by right. }
  destruct (parseTestFile absPath path false) as [test|]; [|by injection Hv as <-].
  destruct (suites !! Dir test) as [suite|]; [|done].
  assert (is_Some (<[Dir test := setBase
            match Base suite with Some b => mergeTest b test | None => test end
            suite]> suites !! k)) as Hk1.
  { apply lookup_insert_is_Some'. by right. }
  destruct (negb (String.eqb (Path suite) EmptyString)); [|by injection Hv as <-].
  destruct (_ !! getParentPath (Path suite)) as [parent|]; [|done].
  destruct (0 <=? Seq _).
  - destruct (Base suite); injection Hv as <-.
    + apply lookup_insert_is_Some'. by right.
    + apply lookup_alter_is_Some, lookup_insert_is_Some'. by right.
  - injection Hv as <-. apply lookup_insert_is_Some'. by right.
Qed.

(** A file is visited without error when the suites of its directory
    and of the parent of that directory are there. *)
Lemma visit_file_ok absPath suites path :
  map_Forall good suites →
  (∀ test, parseTestFile absPath path false = Some test →
           is_Some (suites !! Dir test) ∧
           (Dir test ≠ EmptyString →
            is_Some (suites !! getParentPath (Dir test)))) →
  ∃ suites', visit absPath suites (path, false) = inr suites'.
Proof.
  intros Hg Hpre. unfold visit.
  destruct (parseTestFile absPath path false) as [test|]; [|eauto].
  destruct (Hpre test eq_refl) as [[suite Hs] Hpar]. rewrite Hs.
  assert (Path suite = Dir test) as -> by apply (Hg _ _ Hs).
  destruct (String.eqb_spec (Dir test) EmptyString) as [E|E]; simpl; [eauto|].
  assert (is_Some (<[Dir test := setBase
            match Base suite with Some b => mergeTest b test | None => test end
            suite]> suites !! getParentPath (Dir test))) as [parent ->].
  { apply lookup_insert_is_Some'. right. by apply Hpar. }
  destruct (0 <=? Seq _); [|eauto]. destruct (Base suite); eauto.
Qed.

Lemma visitAll_app absPath suites l1 l2 :
  visitAll absPath suites (l1 ++ l2) =
  match visitAll absPath suites l1 with
  | inl err => inl err
  | inr suites' => visitAll absPath suites' l2
  end.
Proof.
  revert suites. induction l1 as [|e l1 IH]; intros suites; [done|]. simpl.
  destruct (visit absPath suites e); [done|apply IH].
Qed.

Lemma fullPath_snoc absPath segs n :
  fullPath absPath (segs ++ [n]) = filepath.Join (fullPath absPath segs) n.
Proof. unfold fullPath. by rewrite foldl_app. Qed.

(** The test of a fixture file is filed under the joined names of its
    directory. *)
Lemma parseTestFile_Dir absPath segs f test :
  Forall validName (segs ++ [f]) →
  parseTestFile absPath (fullPath absPath (segs ++ [f])) false = Some test →
  Dir test = Join segs filepath.Separator.
Proof.
  intros Hv Hp. apply parseTestFile_Some in Hp as (_ & _ & -> & _).
  apply Forall_app in Hv as [Hs [Hf _]%Forall_cons].
  rewrite Rel_fullPath; [|by destruct segs|].
  - by destruct (Dir_Join segs f Hs Hf).
  - apply Forall_app. split; [done|]. by apply Forall_singleton.
Qed.

(** Walking a tree with valid names from a state that holds the suites
    of all the directories above it returns suites, and loses none. *)
Lemma walk_ok absPath e :
  validTree e →
  ∀ segs suites,
    Forall validName segs →
    map_Forall good suites →
    (∀ i, (i < length segs)%nat →
          is_Some (suites !! Join (take i segs) filepath.Separator)) →
    ∃ suites', visitAll absPath suites (walk (fullPath absPath segs) e) = inr suites' ∧
               map_Forall good suites' ∧
               ∀ k, is_Some (suites !! k) → is_Some (suites' !! k).
Proof.
  induction e as [n|n es IH] using Entry_all_ind; intros Hvt segs suites Hs Hg Hanc.
  - (* a file *)
    change (visitAll absPath suites (walk (fullPath absPath segs) (File n)))
      with (match visit absPath suites (fullPath absPath segs, false) with
            | inl err => inl err
            | inr suites' => inr suites'
            end).
    destruct (visit_file_ok absPath suites (fullPath absPath segs) Hg)
      as [suites' Hv].
    { intros test Hp. destruct segs as [|x l _] using rev_ind.
      { change (fullPath absPath []) with absPath in Hp.
        by rewrite parseTestFile_root in Hp. }
      rewrite (parseTestFile_Dir _ _ _ _ Hs Hp). split.
      - rewrite <- (take_app_length l [x]). apply Hanc.
        rewrite List.length_app. simpl. lia.
      - intros Hne. destruct l as [|y l' _] using rev_ind; [done|].
        apply Forall_app in Hs as [Hl _]. rewrite getParentPath_Join by done.
        rewrite <- (take_app_length l' ([y] ++ [x])), (assoc_L (++)).
        apply Hanc. rewrite !List.length_app. simpl. lia. }
    rewrite Hv. exists suites'. split; [done|]. split.
    + eapply visit_good; [|done|exact Hv]. simpl.
      pose proof (walk_beneath (File n) (fullPath absPath segs)) as Hb.
      simpl in Hb. apply Forall_cons in Hb as [Hb _].
      clear -Hs. induction segs as [|x l IHl] using rev_ind; [apply beneath_refl|].
      apply Forall_app in Hs as [Hl _]. rewrite fullPath_snoc.
      eapply beneath_trans; [by apply IHl|apply beneath_Join].
    + intros k. by eapply visit_dom.
  - (* a directory *)
    inversion Hvt as [|n' es' Hnames Htrees]; subst. simpl.
    fold (relKey absPath (fullPath absPath segs)).
    rewrite relKey_fullPath by done.
    set (k0 := Join segs filepath.Separator).
    assert (map_Forall good (<[k0 := emptySuite k0]> suites)) as Hg0.
    { apply map_Forall_insert_2; [apply good_emptySuite|done]. }
    assert (∀ i, (i ≤ length segs)%nat →
                 is_Some (<[k0 := emptySuite k0]> suites
                            !! Join (take i segs) filepath.Separator)) as Hanc0.
    { intros i Hi. apply lookup_insert_is_Some'.
      destruct (decide (i = length segs)) as [->|Hne].
      - left. unfold k0. by rewrite firstn_all.
      - right. apply Hanc. lia. }
    assert (∀ k, is_Some (suites !! k) →
                 is_Some (<[k0 := emptySuite k0]> suites !! k)) as Hdom0.
    { intros k Hk. apply lookup_insert_is_Some'. by right. }
    revert Hg0 Hanc0 Hdom0. generalize (<[k0 := emptySuite k0]> suites).
    clear Hvt. induction es as [|c es IHes]; intros st Hg0 Hanc0 Hdom0.
    + exists st. split; [done|]. split; [done|exact Hdom0].
    + apply Forall_cons in IH as [IHc IHrest].
      apply Forall_cons in Hnames as [Hc Hnames].
      apply Forall_cons in Htrees as [Htc Htrees].
      rewrite visitAll_app, <- fullPath_snoc.
      destruct (IHc Htc (segs ++ [entryName c]) st) as (st1 & -> & Hg1 & Hdom1).
      * apply Forall_app. split; [done|]. by apply Forall_singleton.
      * done.
      * intros i Hi. rewrite List.length_app in Hi. simpl in Hi.
        rewrite take_app_le by lia. apply Hanc0. lia.
      * destruct (IHes IHrest Hnames Htrees st1) as (st2 & -> & Hg2 & Hdom2);
          try done.
        -- intros i Hi. by apply Hdom1, Hanc0.
        -- intros k Hk. by apply Hdom1, Hdom0.
        -- exists st2. split; [done|]. split; [done|exact Hdom2].
Qed.

(** [DiscoverTests] returns suites for every tree with valid names:
    neither error of the walk function can occur. *)
Lemma DiscoverTests_succeeds absPath root :
  validTree root → ∃ s, DiscoverTests absPath root = inr s.
Proof.
  intros Hv. unfold DiscoverTests.
  destruct (walk_ok absPath root Hv [] ∅) as (suites & Hw & _).
  - constructor.
  - apply map_Forall_empty.
  - simpl. lia.
  - simpl in Hw. rewrite Hw. eauto.
Qed.

(** The ancestors of a directory, by [getParentPath], are the
    directories its names lead through. *)
Lemma ancestorPath_Join l1 l2 :
  Forall validName (l1 ++ l2) →
  ancestorPath (length l2) (Join (l1 ++ l2) filepath.Separator)
  = Join l1 filepath.Separator.
Proof.
  induction l2 as [|x l2 IH] using rev_ind; intros Hv.
  - by rewrite (right_id_L [] (++)).
  - rewrite List.length_app, Nat.add_comm. simpl length.
    change (1 + length l2)%nat with (S (length l2)).
    rewrite ancestorPath_S, (assoc_L (++)), getParentPath_Join.
    + apply IH. rewrite (assoc_L (++)) in Hv. by apply Forall_app in Hv as [? _].
    + by rewrite <- (assoc_L (++)).
Qed.

End Success.

(** ** The model at work *)

Example parse_nested :
  parseTestFile "/r" "/r/a/001_First/request.gql" false =
  Some (mkTest "001_First" "a/001_First" "/r/a/001_First" 1
          "/r/a/001_First/request.gql" EmptyString EmptyString EmptyString).
Proof. by vm_compute. Qed.

(** The scenario of the specification: the root, then the sequenced
    children; a limit of 1 keeps the first child only. *)
Example scenario_order :
  Dir <$> GetOrderedTests scenarioSuites EmptyString
    = [EmptyString; "001_First"; "002_Second"] ∧
  Dir <$> run scenarioSuites EmptyString 1 = [EmptyString; "001_First"] ∧
  RunnableSuitePaths scenarioSuites = [EmptyString; "Extra"].
Proof. repeat split; by vm_compute. Qed.

(** A start path directly under the root does not run the root suite:
    its parent path is the empty string, which [runWithVisited] takes
    for the absence of a parent. *)
Example top_level_start_leaves_root_out :
  IsValid <$> (nestedSuites !! EmptyString ≫= Base) = Some true ∧
  getParentPath "a" = EmptyString ∧
  Dir <$> GetOrderedTests nestedSuites "a" = ["a"; "a/001_b"].
Proof. repeat split; by vm_compute. Qed.

(** * Further properties of the ordering *)

Section ChildOrder.
Context {rt : GoRuntime}.

Lemma two_elements_order {A} (l : list A) (a b : A) :
  a ∈ l → b ∈ l → a ≠ b →
  (∃ l1 l2 l3, l = l1 ++ a :: l2 ++ b :: l3) ∨
  (∃ l1 l2 l3, l = l1 ++ b :: l2 ++ a :: l3).
Proof.
  intros Ha Hb Hne. apply list_elem_of_split in Ha as (l1 & l2 & ->).
  apply elem_of_app in Hb as [Hb|Hb].
  - right. apply list_elem_of_split in Hb as (k1 & k2 & ->).
    exists k1, k2, l2. by rewrite <- (assoc_L (++)).
  - apply elem_of_cons in Hb as [->|Hb]; [done|].
    left. apply list_elem_of_split in Hb as (k1 & k2 & ->). by exists l1, k1, k2.
Qed.

Lemma collectChild_limit s m p :
  collectChild s m p =
  match collectChild s (-1) p with
  | Some t => if (0 <=? m) && (0 <=? Seq t) && (m <? Seq t) then None else Some t
  | None => None
  end.
Proof.
  unfold collectChild. destruct (s !! p) as [child|]; [|done].
  destruct (Base child) as [b|]; [|done]. by destruct (IsValid b).
Qed.

Lemma omap_then_filter {A B} (f : A → option B) (g : B → bool) (l : list A) :
  omap (λ x, match f x with
             | Some y => if g y then None else Some y
             | None => None
             end) l
  = filter (λ y, g y = false) (omap f l).
Proof.
  induction l as [|x l IH]; [done|]. simpl.
  destruct (f x) as [y|]; [|exact IH].
  rewrite filter_cons. case_decide as Hg.
  - rewrite Hg. f_equal. exact IH.
  - destruct (g y); [exact IH|done].
Qed.

Lemma omap_pointwise {A B} (f g : A → option B) (l : list A) :
  (∀ x, f x = g x) → omap f l = omap g l.
Proof.
  intros H. induction l as [|x l IH]; [done|]. simpl. rewrite H.
  destruct (g x); [f_equal|]; exact IH.
Qed.

Lemma childTests_limit s su m :
  childTests s su m ≡ₚ
  filter (λ t, (0 <=? m) && (0 <=? Seq t) && (m <? Seq t) = false)
         (childTests s su (-1)).
Proof.
  rewrite (childTests_perm s su (-1)), childTests_perm.
  rewrite <- omap_then_filter.
  rewrite (omap_pointwise _ (λ kv : string * string,
    match collectChild s (-1) kv.2 with
    | Some t => if (0 <=? m) && (0 <=? Seq t) && (m <? Seq t) then None else Some t
    | None => None
    end)); [done|].
  intros [n p]. apply collectChild_limit.
Qed.

Lemma childTests_unlimited s su m :
  m < 0 → childTests s su m = childTests s su (-1).
Proof.
  intros Hm. unfold childTests. f_equal. apply omap_pointwise.
  intros [n p]. simpl. rewrite collectChild_limit.
  destruct (collectChild s (-1) p) as [t|]; [|done].
  destruct (Z.leb_spec 0 m); [lia|done].
Qed.

End ChildOrder.

(** X1: among the child tests that [run] appends for a suite, a
    sequenced test comes before every test with a greater sequence
    number and before every test without one. *)
Theorem sequenced_child_comes_first `{rt : GoRuntime}
    (s : Suites) (su : Suite) (m : Z) (a b : Test) :
  a ∈ childTests s su m → b ∈ childTests s su m →
  0 ≤ Seq a → Seq a < Seq b ∨ Seq b < 0 →
  ∃ l1 l2 l3, childTests s su m = l1 ++ a :: l2 ++ b :: l3.
Proof.
  intros Ha Hb Hsa Hlt.
  destruct (two_elements_order _ a b Ha Hb) as [H|(l1 & l2 & l3 & E)]; [|done|].
  { intros ->. lia. }
  exfalso. destruct (childTests_order _ _ _ _ _ _ _ _ E) as [?|[?|(?&?&?)]]; lia.
Qed.

(** The two sequenced children of the scenario, in the root's order. *)
Lemma sequenced_child_comes_first_witness :
  ∃ l1 l2 l3,
    childTests scenarioSuites
      (default (emptySuite EmptyString) (scenarioSuites !! EmptyString)) (-1)
    = l1 ++ fixture "/r" "001_First" "001_First" 1
         :: l2 ++ fixture "/r" "002_Second" "002_Second" 2 :: l3.
Proof.
  apply (sequenced_child_comes_first scenarioSuites _ (-1)).
  - vm_compute. apply list_elem_of_here.
  - vm_compute. apply list_elem_of_further, list_elem_of_here.
  - by vm_compute.
  - left. by vm_compute.
Defined.

(** X2: [maxSeq] bears on the child tests of the start suite only, and
    as a filter: the tests of the ancestors and the base test are the
    same for every limit, the child tests under a limit are those of the
    unlimited call whose sequence number is negative or within the
    limit, and a negative limit is no limit. *)
Theorem maxSeq_filters_children `{rt : GoRuntime} (s : Suites) (p : string) :
  (∀ su, s !! p = Some su →
         ∃ pre, ∀ m, run s p m = pre ++ childTests s su m) ∧
  (∀ su m, childTests s su m ≡ₚ
           filter (λ t, (0 <=? m) && (0 <=? Seq t) && (m <? Seq t) = false)
                  (childTests s su (-1))) ∧
  (∀ su m t, 0 ≤ m → t ∈ childTests s su m → Seq t ≤ m) ∧
  (∀ m, m < 0 → run s p m = GetOrderedTests s p).
Proof.
  split; [|split; [|split]].
  - intros su Hp.
    exists ((if String.eqb (getParentPath p) EmptyString then []
             else run s (getParentPath p) (-1)) ++ baseTest su).
    intros m. by rewrite run_eq, Hp, (assoc_L (++)).
  - intros su m. apply childTests_limit.
  - intros su m t Hm Hin. rewrite childTests_limit in Hin.
    apply list_elem_of_filter in Hin as [Hf _].
    destruct (Z.leb_spec 0 m); [|lia]. destruct (Z.leb_spec 0 (Seq t)); [|lia].
    destruct (Z.ltb_spec m (Seq t)); [done|lia].
  - intros m Hm. unfold GetOrderedTests. rewrite (run_eq s p m), (run_eq s p (-1)).
    destruct (s !! p) as [su|]; [|done]. by rewrite childTests_unlimited.
Qed.

(** X3: a second call of [runWithVisited] for the same path, with the
    [visited] map the first call left, changes nothing: it marks nothing
    and calls [fn] on no test, whatever its fuel and [maxSeq]. *)
Theorem runWithVisited_again_is_noop `{rt : GoRuntime}
    (f1 f2 : nat) (s : Suites) (p : string) (m1 m2 : Z) (st st' : RunState) :
  runWithVisited f1 s p m1 st = Some st' →
  runWithVisited f2 s p m2 st' = Some st'.
Proof.
  rewrite (runWithVisited_eq f1), (runWithVisited_eq f2).
  destruct (isVisited st p) eqn:Hv.
  { intros [= <-]. by rewrite Hv. }
  destruct (s !! p) as [su|].
  - destruct (if String.eqb (getParentPath p) EmptyString then Some st else _)
      as [st1|]; [|done].
    intros [= <-]. unfold isVisited, runSuite. simpl.
    by rewrite lookup_insert_eq.
  - intros [= <-]. by rewrite Hv.
Qed.

(** The suite [a/001_b] of [nestedTree], run twice. *)
Lemma runWithVisited_again_is_noop_witness :
  ∃ st', runWithVisited 7 nestedSuites "a/001_b" (-1) (mkRunState ∅ []) = Some st' ∧
         runWithVisited 7 nestedSuites "a/001_b" 5 st' = Some st'.
Proof.
  destruct (runWithVisited 7 nestedSuites "a/001_b" (-1) (mkRunState ∅ []))
    as [st'|] eqn:E.
  - exists st'. split; [done|].
    exact (runWithVisited_again_is_noop 7 7 nestedSuites "a/001_b" (-1) 5 _ st' E).
  - exfalso. by destruct (runWithVisited_total 7 nestedSuites "a/001_b" (-1)
                           (mkRunState ∅ [])) as [? ?]; [by vm_compute|congruence].
Defined.

(** * Further properties of the fragments *)

Lemma overwrite_set x y :
  negb (String.eqb (overwrite x y) EmptyString)
  = negb (String.eqb x EmptyString) || negb (String.eqb y EmptyString).
Proof.
  unfold overwrite. destruct (String.eqb_spec y EmptyString) as [->|Hy]; simpl.
  - by rewrite orb_false_r.
  - destruct (String.eqb_spec y EmptyString); [done|]. by rewrite orb_true_r.
Qed.

(** X4: [mergeTest] keeps the name, the directories and the sequence
    number of its first argument, and the merged test is valid exactly
    when a request and a response are set in one of the two: merging
    never makes a valid test invalid. *)
Theorem mergeTest_keeps_identity_and_validity (dst src : Test) :
  Name (mergeTest dst src) = Name dst ∧ Dir (mergeTest dst src) = Dir dst ∧
  AbsDir (mergeTest dst src) = AbsDir dst ∧ Seq (mergeTest dst src) = Seq dst ∧
  (IsValid (mergeTest dst src) = true ↔
   (Request dst ≠ EmptyString ∨ Request src ≠ EmptyString) ∧
   (Response dst ≠ EmptyString ∨ Response src ≠ EmptyString)) ∧
  (IsValid dst = true ∨ IsValid src = true → IsValid (mergeTest dst src) = true).
Proof.
  rewrite mergeTest_fields. unfold IsValid. simpl. rewrite !overwrite_set.
  destruct (String.eqb_spec (Request src) EmptyString),
    (String.eqb_spec (Response src) EmptyString),
    (String.eqb_spec (Request dst) EmptyString),
    (String.eqb_spec (Response dst) EmptyString); simpl;
    repeat split; try done; intros; try (intuition (auto; congruence)).
Qed.

(** * Further properties of the classifier *)

Section Sequence.
Import strings strings_facts.

Lemma digit_values :
  digit "0" = Some 0 ∧ digit "1" = Some 1 ∧ digit "2" = Some 2 ∧
  digit "3" = Some 3 ∧ digit "4" = Some 4 ∧ digit "5" = Some 5 ∧
  digit "6" = Some 6 ∧ digit "7" = Some 7 ∧ digit "8" = Some 8 ∧
  digit "9" = Some 9.
Proof. by vm_compute. Qed.

Lemma digits_cons c s acc :
  digits (String c s) acc =
  match digit c with
  | Some d => digits s (10 * acc + d)
  | None => None
  end.
Proof. reflexivity. Qed.

Lemma digits_uint_acc (u : Decimal.uint) (acc : positive) :
  digits (DecimalString.NilEmpty.string_of_uint u) (Z.pos acc)
  = Some (Z.pos (Pos.of_uint_acc u acc)).
Proof.
  destruct digit_values as (D0 & D1 & D2 & D3 & D4 & D5 & D6 & D7 & D8 & D9).
  revert acc. induction u as [|u IH|u IH|u IH|u IH|u IH|u IH|u IH|u IH|u IH|u IH];
    intros acc; [done|..];
    cbn [DecimalString.NilEmpty.string_of_uint Pos.of_uint_acc];
    rewrite digits_cons, ?D0, ?D1, ?D2, ?D3, ?D4, ?D5, ?D6, ?D7, ?D8, ?D9,
      <- IH; f_equal; lia.
Qed.

(** The digits of a decimal numeral are read as its value. *)
Lemma digits_uint (u : Decimal.uint) :
  digits (DecimalString.NilEmpty.string_of_uint u) 0 = Some (Z.of_uint u).
Proof.
  destruct digit_values as (D0 & D1 & D2 & D3 & D4 & D5 & D6 & D7 & D8 & D9).
  unfold Z.of_uint.
  induction u as [|u IH|u IH|u IH|u IH|u IH|u IH|u IH|u IH|u IH|u IH];
    [done|..];
    cbn [DecimalString.NilEmpty.string_of_uint Pos.of_uint];
    rewrite digits_cons, ?D0, ?D1, ?D2, ?D3, ?D4, ?D5, ?D6, ?D7, ?D8, ?D9;
    first [exact IH | apply digits_uint_acc].
Qed.

Lemma SplitN2_uint (u : Decimal.uint) (rest : string) :
  SplitN2 (DecimalString.NilEmpty.string_of_uint u +:+ String "_" rest) "_"
  = [DecimalString.NilEmpty.string_of_uint u; rest].
Proof.
  induction u as [|u IH|u IH|u IH|u IH|u IH|u IH|u IH|u IH|u IH|u IH];
    [done|..];
    cbn [DecimalString.NilEmpty.string_of_uint]; rewrite app_cons;
    cbn [SplitN2]; rewrite IH; reflexivity.
Qed.

Lemma Atoi_uint (u : Decimal.uint) :
  u ≠ Decimal.Nil →
  Atoi (DecimalString.NilEmpty.string_of_uint u)
  = if Z.of_uint u <=? maxInt then Some (Z.of_uint u) else None.
Proof.
  intros Hne. pose proof (digits_uint u) as Hd.
  assert (0 ≤ Z.of_uint u) as Hpos.
  { unfold Z.of_uint. lia. }
  assert ((if (minInt <=? Z.of_uint u) && (Z.of_uint u <=? maxInt)
           then Some (Z.of_uint u) else None)
          = if Z.of_uint u <=? maxInt then Some (Z.of_uint u) else None) as Hrange.
  { unfold minInt. by destruct (Z.leb_spec (-9223372036854775808) (Z.of_uint u)); [|lia]. }
  destruct u; [done|..]; cbn [DecimalString.NilEmpty.string_of_uint] in *;
    cbv beta match zeta delta [Atoi]; rewrite Hd; exact Hrange.
Qed.

Lemma SplitN2_none s :
  Contains s "_" = false → SplitN2 s "_" = [s].
Proof.
  induction s as [|c s IH]; [done|]. rewrite Contains_cons.
  intros [H1 H2]%orb_false_iff. rewrite HasPrefix_single in H1.
  cbn [SplitN2]. rewrite Ascii.eqb_sym, H1, (IH H2). reflexivity.
Qed.

End Sequence.

(** X5: a directory name that is a decimal numeral, leading zeros
    allowed, followed by an underscore gets the value of the numeral as
    its sequence number when the value fits the 64-bit [int]; when it
    does not, the name is unsequenced (-1). *)
Theorem sequence_number_of_numeric_prefix (u : Decimal.uint) (rest : string) :
  u ≠ Decimal.Nil →
  seqOf (DecimalString.NilEmpty.string_of_uint u +:+ String "_" rest)
  = if Z.of_uint u <=? strings.maxInt then Z.of_uint u else -1.
Proof.
  intros Hne. unfold seqOf. rewrite SplitN2_uint, Atoi_uint by done.
  by destruct (Z.of_uint u <=? strings.maxInt).
Qed.

(** [001_First] has sequence number 1; twenty nines have none. *)
Lemma sequence_number_of_numeric_prefix_witness :
  seqOf "001_First" = 1 ∧ seqOf "99999999999999999999_Big" = -1.
Proof.
  split.
  - exact (sequence_number_of_numeric_prefix
             (Decimal.D0 (Decimal.D0 (Decimal.D1 Decimal.Nil))) "First"
             ltac:(done)).
  - exact (sequence_number_of_numeric_prefix
             (N.to_uint 99999999999999999999) "Big" ltac:(by vm_compute)).
Defined.

(** X6: a directory name without an underscore is unsequenced: its
    sequence number is -1, whatever digits it holds. *)
Theorem name_without_underscore_is_unsequenced (name : string) :
  strings.Contains name "_" = false → seqOf name = -1.
Proof. intros H. unfold seqOf. by rewrite SplitN2_none. Qed.

Lemma name_without_underscore_is_unsequenced_witness : seqOf "2024" = -1.
Proof. apply name_without_underscore_is_unsequenced. by vm_compute. Defined.

(** X7: [parseTestFile] gives no test for a directory, nor for a file
    whose name is not one of the four fixture names. *)
Theorem unrecognized_entries_give_no_test
    (absPath : string) (segs : list string) (file : string) :
  Forall validName segs → validName file → file ∉ fixtureNames →
  parseTestFile absPath (fullPath absPath (segs ++ [file])) false = None ∧
  ∀ path, parseTestFile absPath path true = None.
Proof.
  intros Hs Hf Hnot. split; [|done].
  destruct (parseTestFile absPath (fullPath absPath (segs ++ [file])) false)
    as [t|] eqn:Hp; [|done].
  exfalso. apply parseTestFile_Some in Hp as (_ & _ & _ & _ & _ & _ & Hb).
  rewrite Rel_fullPath in Hb.
  - destruct (Dir_Join segs file Hs Hf) as [_ HBase]. rewrite HBase in Hb.
    apply Hnot. unfold fixtureNames.
    destruct Hb as [(-> & _)|[(-> & _)|[(-> & _)|(-> & _)]]];
      repeat first [apply list_elem_of_here | apply list_elem_of_further].
  - by destruct segs.
  - apply Forall_app. split; [done|]. by apply Forall_singleton.
Qed.

Lemma unrecognized_entries_give_no_test_witness :
  parseTestFile "/r" (fullPath "/r" (["001_First"] ++ ["notes.txt"])) false = None ∧
  ∀ path, parseTestFile "/r" path true = None.
Proof.
  apply (unrecognized_entries_give_no_test "/r" ["001_First"] "notes.txt").
  - repeat constructor; by vm_compute.
  - repeat split; by vm_compute.
  - unfold fixtureNames. intros Hin.
    repeat (apply elem_of_cons in Hin as [Hin|Hin]; [discriminate Hin|]).
    by apply elem_of_nil in Hin.
Defined.

(** * Further properties of the discovery *)

Section DiscoveryFacts.
Import strings strings_facts.

Lemma discovered_inr absPath root :
  succeeds absPath root = true →
  DiscoverTests absPath root = inr (discovered absPath root).
Proof.
  unfold succeeds, discovered. by destruct (DiscoverTests absPath root).
Qed.

Lemma prunable_false su :
  prunable su = false ↔ Base su ≠ None ∨ Tests su ≠ ∅.
Proof.
  unfold prunable. destruct (Base su) as [b|].
  - split; [by left|done].
  - destruct (Nat.eqb_spec (size (Tests su)) 0) as [E|E].
    + apply map_size_empty_iff in E. split; [done|]. by intros [?|?].
    + split; [|done]. intros _. right. by rewrite <- map_size_empty_iff.
Qed.

Lemma Split_sepFree_all s :
  Forall (λ n, Contains n "/" = false) (Split s filepath.Separator).
Proof.
  induction s as [|c s IH]; [by repeat constructor|]. simpl.
  destruct (Ascii.eqb_spec c filepath.Separator) as [->|Hne].
  - by constructor.
  - destruct (Split_cons s filepath.Separator) as (h & t & E). rewrite E in *.
    apply Forall_cons in IH as [Hh Ht]. constructor; [|done].
    rewrite Contains_cons, HasPrefix_single, Hh, orb_false_r.
    rewrite Ascii.eqb_sym. by apply Ascii.eqb_neq.
Qed.

Lemma Split_snoc_sepFree q n :
  Contains n "/" = false →
  Split (q +:+ String filepath.Separator n) filepath.Separator
  = Split q filepath.Separator ++ [n].
Proof.
  intros Hn. induction q as [|c q IH].
  - rewrite app_nil_l. simpl. by rewrite Split_sepFree.
  - rewrite app_cons. simpl. rewrite IH.
    destruct (Ascii.eqb c filepath.Separator); [done|].
    by destruct (Split_cons q filepath.Separator) as (h & t & ->).
Qed.

Lemma last_sepFree s :
  Contains (List.last (Split s filepath.Separator) EmptyString) "/" = false.
Proof.
  pose proof (Split_sepFree_all s) as H.
  destruct (Split_cons s filepath.Separator) as (h & t & E). rewrite E in *.
  rewrite Forall_forall in H. apply H. apply list_elem_of_In.
  destruct (exists_last (l := h :: t)) as (l' & a & ->); [done|].
  rewrite last_last. apply in_or_app. right. by left.
Qed.

End DiscoveryFacts.

(** X8: [getParentPath] cuts a path at its last separator: the parent
    of [q/n], for a last element [n] without separator, is [q], whatever
    [q] is; and a path without separator, a directory right under the
    root, has the empty root path as parent. *)
Theorem getParentPath_cuts_last_element (q n : string) :
  strings.Contains n "/" = false →
  getParentPath (q +:+ String filepath.Separator n) = q ∧
  getParentPath n = EmptyString.
Proof.
  intros Hn. split.
  - unfold getParentPath.
    destruct (String.eqb_spec (q +:+ String filepath.Separator n) EmptyString)
      as [E|_].
    { apply (f_equal String.length) in E.
      rewrite strings_facts.length_app in E. simpl in E. lia. }
    rewrite Split_snoc_sepFree by done.
    rewrite List.length_app, removelast_last. simpl.
    destruct (Nat.leb_spec (length (strings.Split q filepath.Separator) + 1) 1)
      as [Hle|_]; [|apply strings_facts.Join_Split].
    destruct (strings_facts.Split_cons q filepath.Separator) as (h & t & E).
    rewrite E in Hle. simpl in Hle. lia.
  - unfold getParentPath. destruct (String.eqb n EmptyString); [done|].
    by rewrite Split_sepFree.
Qed.

Lemma getParentPath_cuts_last_element_witness :
  getParentPath ("a/001_b" +:+ String filepath.Separator "002_c") = "a/001_b" ∧
  getParentPath "002_c" = EmptyString.
Proof.
  apply (getParentPath_cuts_last_element "a/001_b" "002_c"). by vm_compute.
Defined.

(** X9: [DiscoverTests] returns suites for every tree whose entries
    have valid names: the walk function finds the suite of every fixture
    and the suite of its parent, so neither of its errors occurs. *)
Theorem discovery_succeeds_on_valid_tree (absPath : string) (root : Entry) :
  validTree root → ∃ s, DiscoverTests absPath root = inr s.
Proof. apply DiscoverTests_succeeds. Qed.

Lemma discovery_succeeds_on_valid_tree_witness :
  ∃ s, DiscoverTests "/srv/fixtures" nestedTree = inr s.
Proof.
  apply (discovery_succeeds_on_valid_tree "/srv/fixtures" nestedTree).
  unfold nestedTree.
  repeat first
    [ apply validFile | apply validDirectory | apply List.Forall_nil
    | apply List.Forall_cons | (repeat split; by vm_compute) ].
Defined.

(** X10: every suite that [DiscoverTests] returns is filed under its
    own path and has a base test or a child test; its base test, when
    there is one, carries that path as its directory, the last element
    of the path as its name and the sequence number of that name. *)
Theorem discovered_suites_well_formed
    (absPath : string) (root : Entry) (s : Suites) (k : string) (su : Suite) :
  DiscoverTests absPath root = inr s → s !! k = Some su →
  Path su = k ∧ (Base su ≠ None ∨ Tests su ≠ ∅) ∧
  ∀ b, Base su = Some b →
       Dir b = k ∧ Name b = testNameOf k ∧ Seq b = seqOf (Name b).
Proof.
  intros Hd Hk. destruct (DiscoverTests_good _ _ _ Hd _ _ Hk) as [(H1 & H2 & _) Hp].
  split; [done|]. split; [by apply prunable_false|].
  intros b Hb. destruct (H2 _ Hb) as (? & Hn & ? & _). by rewrite Hn.
Qed.

Lemma discovered_suites_well_formed_witness :
  let su := default (emptySuite EmptyString) (scenarioSuites !! "003_Third") in
  Path su = "003_Third" ∧ (Base su ≠ None ∨ Tests su ≠ ∅) ∧
  ∀ b, Base su = Some b →
       Dir b = "003_Third" ∧ Name b = testNameOf "003_Third" ∧ Seq b = seqOf (Name b).
Proof.
  apply (discovered_suites_well_formed "/r" scenario scenarioSuites).
  - apply discovered_inr. by vm_compute.
  - by vm_compute.
Defined.

(** X11: a child test registered with a suite by [DiscoverTests] is a
    directory right below that suite: its path is not the root, its
    parent path is the path of the suite, it is registered under the
    last element of its path, and that name is sequenced. *)
Theorem registered_children_are_sequenced_subdirectories
    (absPath : string) (root : Entry) (s : Suites) (k : string) (su : Suite)
    (n p : string) :
  DiscoverTests absPath root = inr s → s !! k = Some su →
  Tests su !! n = Some p →
  p ≠ EmptyString ∧ getParentPath p = k ∧ n = testNameOf p ∧ 0 ≤ seqOf n.
Proof.
  intros Hd Hk Hn. destruct (DiscoverTests_good _ _ _ Hd _ _ Hk) as [(_ & _ & H3 & _) _].
  destruct (H3 _ _ Hn) as (-> & ? & ? & ?). done.
Qed.

Lemma registered_children_are_sequenced_subdirectories_witness :
  "a/001_b" ≠ EmptyString ∧ getParentPath "a/001_b" = "a" ∧
  "001_b" = testNameOf "a/001_b" ∧ 0 ≤ seqOf "001_b".
Proof.
  apply (registered_children_are_sequenced_subdirectories "/r" nestedTree nestedSuites
           "a" (default (emptySuite EmptyString) (nestedSuites !! "a"))).
  - apply discovered_inr. by vm_compute.
  - by vm_compute.
  - by vm_compute.
Defined.

(** ** Reference counts *)

Section References.

(** What [visit] does for a fixture file, case by case. *)
Lemma visit_file_cases absPath suites path suites' :
  visit absPath suites (path, false) = inr suites' →
  (parseTestFile absPath path false = None ∧ suites' = suites) ∨
  ∃ test suite,
    parseTestFile absPath path false = Some test ∧
    suites !! Dir test = Some suite ∧
    let isNew := match Base suite with None => true | Some _ => false end in
    let base := match Base suite with
                | None => test
                | Some b => mergeTest b test
                end in
    let s1 := <[Dir test := setBase base suite]> suites in
    (Path suite = EmptyString ∧ suites' = s1) ∨
    (Path suite ≠ EmptyString ∧
     ∃ parent, s1 !! getParentPath (Path suite) = Some parent ∧
       let parent' := if isNew then incRefs parent else parent in
       (0 ≤ Seq base ∧
        suites' = (if isNew then alter incRefs (Dir test) else id)
                    (<[getParentPath (Path suite) :=
                         addTest (Name test) (Path suite) parent']> s1)) ∨
       (Seq base < 0 ∧
        suites' = <[getParentPath (Path suite) := parent']> s1)).
Proof.
  unfold visit.
  destruct (parseTestFile absPath path false) as [test|]; [|intros [= <-]; by left].
  destruct (suites !! Dir test) as [suite|] eqn:Hs; [|done].
  intros Hv. right. exists test, suite. split; [done|]. split; [done|]. simpl.
  destruct (String.eqb_spec (Path suite) EmptyString) as [E|E]; simpl in Hv.
  { left. split; [done|]. by injection Hv as <-. }
  right. split; [done|].
  destruct (_ !! getParentPath (Path suite)) as [parent|]; [|done].
  exists parent. split; [done|].
  destruct (Z.leb_spec 0 (Seq match Base suite with
                              | Some b => mergeTest b test
                              | None => test
                              end)) as [Hle|Hlt].
  - left. split; [done|]. destruct (Base suite); by injection Hv as <-.
  - right. split; [done|]. by injection Hv as <-.
Qed.

Lemma refsGood_incRefs k su : refsGood k su → refsGood k (incRefs su).
Proof.
  intros [H0 H1]. split; simpl; [lia|]. intros b Hb Hk Hs. lia.
Qed.

Lemma visit_refsGood absPath suites e suites' :
  beneath absPath e.1 →
  map_Forall good suites → map_Forall refsGood suites →
  visit absPath suites e = inr suites' →
  map_Forall refsGood suites'.
Proof.
  intros Hb Hg Hr Hv. destruct e as [path [|]].
  { unfold visit in Hv. injection Hv as <-.
    apply map_Forall_insert_2; [|done]. split; simpl; [lia|done]. }
  destruct (visit_file_cases _ _ _ _ Hv) as [[_ ->]|(test & suite & Hp & Hs & Hc)];
    [done|].
  pose proof (Hr _ _ Hs) as [Hr0 Hr1].
  assert (Path suite = Dir test) as HP by apply (Hg _ _ Hs).
  set (base := match Base suite with Some b => mergeTest b test | None => test end)
    in Hc.
  set (s1 := <[Dir test := setBase base suite]> suites) in Hc.
  assert (Base suite ≠ None → refsGood (Dir test) (setBase base suite)) as Hold.
  { intros Hsome. split; [done|]. simpl. intros b [= <-] Hk Hseq.
    unfold base in Hseq. destruct (Base suite) as [b0|] eqn:Hb0; [|done].
    apply (Hr1 b0); [done|done|]. by rewrite mergeTest_fields in Hseq. }
  assert (0 ≤ refs (setBase base suite)) as H0 by done.
  simpl in Hc. destruct Hc as [[HE ->]|(HE & parent & Hpar & Hc)].
  { apply map_Forall_insert_2; [|done]. split; [done|].
    intros b _ Hk. by rewrite <- HP in Hk. }
  assert (map_Forall (λ k su, 0 ≤ refs su ∧
            (k ≠ Dir test → refsGood k su) ∧
            (k = Dir test → Base suite ≠ None → refsGood k su)) s1) as Hs1.
  { intros k su. unfold s1. rewrite lookup_insert_Some.
    intros [[<- <-]|[Hne Hk]].
    - split; [done|]. split; [done|]. intros _. exact Hold.
    - destruct (Hr _ _ Hk). split; [done|]. split; [intros _; by apply Hr|done]. }
  assert (getParentPath (Path suite) ≠ Dir test) as Hpne.
  { rewrite HP. intros E.
    destruct (String.eqb_spec (getParentPath (Dir test)) EmptyString) as [E0|E0].
    - apply HE. by rewrite HP, <- E.
    - apply getParentPath_shorter in E0. rewrite E in E0. lia. }
  pose proof (Hs1 _ _ Hpar) as (Hp0 & Hpg & _). specialize (Hpg Hpne).
  set (parent' := if match Base suite with None => true | Some _ => false end
                  then incRefs parent else parent) in Hc.
  assert (refsGood (getParentPath (Path suite)) parent') as Hpg'.
  { unfold parent'. destruct (Base suite); [done|by apply refsGood_incRefs]. }
  destruct Hc as [[Hseq ->]|[Hseq ->]].
  - intros k su. destruct (Base suite) as [b0|] eqn:Hb0; simpl.
    + rewrite lookup_insert_Some. intros [[<- <-]|[Hne Hk]].
      * destruct Hpg' as [? Hx]. split; [done|]. exact Hx.
      * destruct (Hs1 _ _ Hk) as (? & H1 & H2).
        destruct (decide (k = Dir test)) as [->|Hkd]; [by apply H2|by apply H1].
    + rewrite lookup_alter_Some.
      intros [(<- & y & Hy & ->)|[Hkd Hk]].
      * rewrite lookup_insert_ne in Hy by done. unfold s1 in Hy.
        rewrite lookup_insert_eq in Hy. injection Hy as <-.
        split; simpl; [lia|]. intros; lia.
      * revert Hk. rewrite lookup_insert_Some. intros [[<- <-]|[Hne Hk]].
        -- destruct Hpg' as [? Hx]. split; [done|]. exact Hx.
        -- destruct (Hs1 _ _ Hk) as (? & H1 & _). by apply H1.
  - intros k su. rewrite lookup_insert_Some. intros [[<- <-]|[Hne Hk]]; [done|].
    destruct (Hs1 _ _ Hk) as (? & H1 & H2).
    destruct (decide (k = Dir test)) as [->|Hkd]; [|by apply H1].
    destruct (Base suite) as [b0|] eqn:Hb0; [by apply H2|].
    unfold s1 in Hk. rewrite lookup_insert_eq in Hk. injection Hk as <-.
    split; [done|]. simpl. intros b [= <-] _ Hs'. unfold base in *. lia.
Qed.

Lemma visitAll_refsGood absPath es : ∀ suites suites',
  Forall (λ pd, beneath absPath pd.1) es →
  map_Forall good suites → map_Forall refsGood suites →
  visitAll absPath suites es = inr suites' →
  map_Forall refsGood suites'.
Proof.
  induction es as [|e es IH]; intros suites suites' Hb Hg Hr; simpl.
  - by intros [= <-].
  - apply Forall_cons in Hb as [Hb1 Hb2].
    destruct (visit absPath suites e) as [err|s1] eqn:Hv; [done|].
    apply IH; [done|by eapply visit_good|by eapply visit_refsGood].
Qed.

Lemma DiscoverTests_refsGood absPath root s :
  DiscoverTests absPath root = inr s → map_Forall refsGood s.
Proof.
  unfold DiscoverTests.
  destruct (visitAll absPath ∅ (walk absPath root)) as [err|suites] eqn:Hv; [done|].
  intros [= <-]. apply visitAll_refsGood in Hv;
    [|apply walk_beneath|apply map_Forall_empty|apply map_Forall_empty].
  intros k su Hk. apply map_lookup_filter_Some in Hk as [Hk _]. by eapply Hv.
Qed.

End References.

(** X12: a sequenced directory with a fixture is referenced (its
    reference count is at least 1), so when it registers no child test
    of its own [RunnableSuitePaths] leaves it out: it runs as part of
    its parent only.  A suite with child tests, and a suite that is not
    referenced, are always returned. *)
Theorem sequenced_leaf_is_not_runnable `{rt : GoRuntime}
    (absPath : string) (root : Entry) (s : Suites) (k : string) (su : Suite) :
  DiscoverTests absPath root = inr s → s !! k = Some su →
  (∀ b, Base su = Some b → k ≠ EmptyString → 0 ≤ Seq b →
        1 ≤ refs su ∧ (Tests su = ∅ → k ∉ RunnableSuitePaths s)) ∧
  (Tests su ≠ ∅ ∨ refs su = 0 → k ∈ RunnableSuitePaths s).
Proof.
  intros Hd Hk. destruct (DiscoverTests_refsGood _ _ _ Hd _ _ Hk) as [H0 H1]. split.
  - intros b Hb Hne Hseq. specialize (H1 b Hb Hne Hseq). split; [done|].
    intros Ht (su' & Hk' & Hn)%RunnableSuitePaths_elem. simplify_eq.
    apply Hn. split; [lia|done].
  - intros H. apply RunnableSuitePaths_elem. exists su. split; [done|].
    intros [Hr Ht]. destruct H as [H|H]; [done|lia].
Qed.

Lemma sequenced_leaf_is_not_runnable_witness :
  let su := default (emptySuite EmptyString) (scenarioSuites !! "001_First") in
  (∀ b, Base su = Some b → "001_First" ≠ EmptyString → 0 ≤ Seq b →
        1 ≤ refs su ∧ (Tests su = ∅ → "001_First" ∉ RunnableSuitePaths scenarioSuites)) ∧
  (Tests su ≠ ∅ ∨ refs su = 0 → "001_First" ∈ RunnableSuitePaths scenarioSuites).
Proof.
  apply (sequenced_leaf_is_not_runnable "/r" scenario scenarioSuites).
  - apply discovered_inr. by vm_compute.
  - by vm_compute.
Defined.

(** * The runner *)

Section RunnerFacts.
Context {json : EncodingJSON}.

Lemma interp_always {W A : Type} (h : Call → W → W * Answer) (p : Prog A) :
  ∀ (P : list Call → A → Prop) (w : W),
    always P p → P (interp h p w).2 (interp h p w).1.2.
Proof.
  induction p as [a|c k IH]; intros P w HP; simpl; [done|].
  apply (IH (h c w).2 (λ calls, P (c :: calls))). apply HP.
Qed.

Lemma always_mono {A : Type} (p : Prog A) :
  ∀ (P Q : list Call → A → Prop),
    (∀ calls a, P calls a → Q calls a) → always P p → always Q p.
Proof.
  induction p as [a|c k IH]; intros P Q HPQ HP; simpl in *; [by apply HPQ|].
  intros r. apply (IH r (λ calls, P (c :: calls))); [|apply HP].
  intros calls a. apply HPQ.
Qed.

Lemma always_bind {A B : Type} (m : Prog A) (f : A → Prog B) :
  ∀ (P : list Call → B → Prop),
    always (λ calls1 a, always (λ calls2 b, P (calls1 ++ calls2) b) (f a)) m →
    always P (bind m f).
Proof.
  induction m as [a|c k IH]; intros P HP; simpl in *; [done|].
  intros r. apply (IH r (λ calls, P (c :: calls))). apply HP.
Qed.

Lemma RunTest_always (test : Test) :
  always (RunTest_post test) (RunTest test).
Proof.
  unfold RunTest, RunTest_post, plan, failed.
  destruct (String.eqb (Variables test) EmptyString),
           (String.eqb (Transform test) EmptyString); simpl;
    repeat first
      [ progress intros
      | match goal with
        | r : Answer |- _ => destruct r; simpl
        | |- context [UnmarshalVariables ?d] => destruct (UnmarshalVariables d); simpl
        | |- context [jsonEqual ?a ?b] => destruct (jsonEqual a b) eqn:?; simpl
        end ];
    repeat split; intros; try done; eauto;
    try (by eexists); try (by right).
Qed.

End RunnerFacts.

(** X13: the result of [RunTest] names the test it ran, and it passed
    exactly when it carries no error.  A result that passed holds two
    responses that [jsonEqual] accepts; one that did not pass either
    reports a response mismatch or stopped at a failing step, with no
    expected and no actual response recorded. *)
Theorem RunTest_passes_iff_no_error `{json : EncodingJSON} {W : Type}
    (h : Call → W → W * Answer) (w : W) (test : Test) :
  let r := (interp h (RunTest test) w).1.2 in
  Result.Test r = test ∧
  (Result.Passed r = true ↔ Result.Error r = None) ∧
  (Result.Passed r = true →
     jsonEqual (Result.Expected r) (Result.Actual r) = true) ∧
  (Result.Passed r = false →
     Result.Error r = Some "response mismatch" ∨
     Result.Expected r = EmptyString ∧ Result.Actual r = EmptyString).
Proof.
  pose proof (interp_always h _ _ w (RunTest_always test))
    as (H1 & H2 & H3 & H4 & _).
  simpl. split; [done|]. split; [done|]. split; [|done].
  intros Hp. by apply H3.
Qed.

(** X14: [RunTest] takes its steps in one order: it reads the request,
    reads the variables when the test has some, executes the request,
    transforms the answer when the test has a transform, reads the
    expected response and transforms it likewise.  Every run makes a
    prefix of these calls, starting with the request; a run that passed
    made all of them; and a test without a transform never calls
    [TransformJSON]. *)
Theorem RunTest_follows_plan `{json : EncodingJSON} {W : Type}
    (h : Call → W → W * Answer) (w : W) (test : Test) :
  let out := interp h (RunTest test) w in
  stepOf <$> out.2 `prefix_of` plan test ∧
  (Result.Passed out.1.2 = true → stepOf <$> out.2 = plan test) ∧
  (∃ rest, out.2 = ReadFile (Request test) :: rest) ∧
  (Transform test = EmptyString → ∀ p d, TransformJSON p d ∉ out.2).
Proof.
  pose proof (interp_always h _ _ w (RunTest_always test))
    as (_ & _ & H3 & _ & H5 & H6).
  simpl. split; [done|]. split; [intros Hp; by apply H3|]. split; [done|].
  intros Ht p d Hin.
  apply (list_elem_of_fmap_2 stepOf) in Hin.
  eapply elem_of_prefix in Hin; [|exact H5].
  revert Hin. unfold plan. rewrite Ht. simpl.
  destruct (String.eqb (Variables test) EmptyString); simpl;
    rewrite ?elem_of_cons, elem_of_nil; intros H; by repeat destruct H as [H|H].
Qed.

(** X15: [jsonEqual] is symmetric and transitive, it is false as soon
    as one side does not decode, and a string equals itself exactly
    when it decodes to a value that encodes. *)
Theorem jsonEqual_partial_equivalence `{json : EncodingJSON} (a b c : string) :
  jsonEqual a b = jsonEqual b a ∧
  (jsonEqual a b = true → jsonEqual b c = true → jsonEqual a c = true) ∧
  (jsonEqual a b = true → jsonEqual a a = true ∧ jsonEqual b b = true) ∧
  (∀ e, Unmarshal a = inl e → jsonEqual a b = false ∧ jsonEqual b a = false) ∧
  (jsonEqual a a = true ↔
     ∃ v n, Unmarshal a = inr v ∧ Marshal v = inr n).
Proof.
  unfold jsonEqual.
  destruct (Unmarshal a) as [ea|va] eqn:Ea, (Unmarshal b) as [eb|vb] eqn:Eb,
           (Unmarshal c) as [ec|vc] eqn:Ec;
    try destruct (Marshal va) as [?|na] eqn:Ma;
    try destruct (Marshal vb) as [?|nb] eqn:Mb;
    try destruct (Marshal vc) as [?|nc] eqn:Mc;
    rewrite ?String.eqb_refl;
    repeat split; intros; try done; eauto;
    repeat match goal with
           | H : ∃ _, _ |- _ => destruct H
           | H : _ ∧ _ |- _ => destruct H
           | H : String.eqb _ _ = true |- _ => apply String.eqb_eq in H; subst
           end;
    rewrite ?String.eqb_refl; try congruence; try apply String.eqb_sym.
Qed.

Section RunSuiteFacts.
Context {json : EncodingJSON} {rt : GoRuntime}.

Lemma runTests_always (options : Options) (tests : list Test) :
  ∀ result,
    Forall (λ t, IsValid t = true) tests →
    always (λ _ res, ∃ rs,
      SuiteResult.Results res = SuiteResult.Results result ++ rs ∧
      SuiteResult.SuitePath res = SuiteResult.SuitePath result ∧
      SuiteResult.Skipped res = SuiteResult.Skipped result ∧
      SuiteResult.Passed res =
        SuiteResult.Passed result +
        Z.of_nat (length (filter (λ r, Result.Passed r = true) rs)) ∧
      SuiteResult.Failed res =
        SuiteResult.Failed result +
        Z.of_nat (length (filter (λ r, Result.Passed r = false) rs)) ∧
      Result.Test <$> rs `prefix_of` tests ∧
      (FailFast options = false → Result.Test <$> rs = tests) ∧
      (FailFast options = true →
         (Forall (λ r, Result.Passed r = true) rs ∧ Result.Test <$> rs = tests) ∨
         (∃ l r, rs = l ++ [r] ∧ Forall (λ r, Result.Passed r = true) l ∧
                 Result.Passed r = false)))
    (runTests options tests result).
Proof.
  induction tests as [|test rest IH]; intros result Hv.
  { simpl. exists []. rewrite app_nil_r, !Z.add_0_r.
    repeat split; try done. by left. }
  apply Forall_cons in Hv as [Hv1 Hv2]. cbn [runTests]. rewrite Hv1. cbn [negb].
  apply always_bind. eapply always_mono; [|apply RunTest_always].
  intros calls1 r (Ht & _). destruct (Result.Passed r) eqn:Hp.
  - eapply always_mono; [|apply IH, Hv2].
    intros _ res (rs & H1 & H2 & H3 & H4 & H5 & H6 & H7 & H8). exists (r :: rs).
    simpl in H1, H2, H3, H4, H5. rewrite <- app_assoc in H1. rewrite !fmap_cons, Ht.
    rewrite filter_cons_True by done. rewrite filter_cons_False by congruence.
    simpl length. repeat split; [done|done|done|lia|lia| | |].
    + by apply prefix_cons.
    + intros Hf. by rewrite H7.
    + intros Hf. destruct (H8 Hf) as [[Ha Hb]|(l & r' & -> & Ha & Hb)].
      * left. split; [by constructor|]. by rewrite Hb.
      * right. exists (r :: l), r'. split; [done|]. split; [by constructor|done].
  - destruct (FailFast options) eqn:Hff.
    + simpl. exists [r]. rewrite filter_cons_False by congruence.
      rewrite filter_cons_True by done. simpl.
      repeat split; try done; [simpl; lia| |].
      * rewrite Ht. apply prefix_cons, prefix_nil.
      * intros _. right. by exists [], r.
    + eapply always_mono; [|apply IH, Hv2].
      intros _ res (rs & H1 & H2 & H3 & H4 & H5 & H6 & H7 & H8). exists (r :: rs).
      simpl in H1, H2, H3, H4, H5. rewrite <- app_assoc in H1. rewrite !fmap_cons, Ht.
      rewrite filter_cons_False by congruence. rewrite filter_cons_True by done.
      simpl length. repeat split; [done|done|done|lia|lia| | |done].
      * by apply prefix_cons.
      * intros _. by rewrite H7.
Qed.

Lemma GetOrderedTests_valid (suites : Suites) (p : string) :
  Forall (λ t, IsValid t = true) (GetOrderedTests suites p).
Proof.
  apply Forall_forall. intros t Hin. by apply run_elem in Hin as [? _].
Qed.

Lemma filter_passed_failed (rs : list Result.t) :
  (length (filter (λ r, Result.Passed r = true) rs) +
   length (filter (λ r, Result.Passed r = false) rs) = length rs)%nat.
Proof.
  induction rs as [|r rs IH]; [done|].
  destruct (Result.Passed r) eqn:Hp.
  - rewrite filter_cons_True by done. rewrite filter_cons_False by congruence.
    simpl. lia.
  - rewrite filter_cons_False by congruence. rewrite filter_cons_True by done.
    simpl. lia.
Qed.

Lemma filter_failed_nil (rs : list Result.t) :
  Forall (λ r, Result.Passed r = true) rs →
  filter (λ r, Result.Passed r = false) rs = [].
Proof.
  induction 1 as [|r rs Hr _ IH]; [done|].
  by rewrite filter_cons_False by congruence.
Qed.

Lemma RunSuite_always (options : Options) (suitePath absPath : string)
    (root : Entry) (suites : Suites) :
  DiscoverTests absPath root = inr suites →
  always (λ _ out, ∃ res,
    out = inr res ∧
    SuiteResult.SuitePath res = suitePath ∧
    SuiteResult.Skipped res = 0 ∧
    SuiteResult.Passed res =
      Z.of_nat (length (filter (λ r, Result.Passed r = true)
                               (SuiteResult.Results res))) ∧
    SuiteResult.Failed res =
      Z.of_nat (length (filter (λ r, Result.Passed r = false)
                               (SuiteResult.Results res))) ∧
    Result.Test <$> SuiteResult.Results res `prefix_of` GetOrderedTests suites EmptyString ∧
    (FailFast options = false →
       Result.Test <$> SuiteResult.Results res = GetOrderedTests suites EmptyString) ∧
    (FailFast options = true →
       (Forall (λ r, Result.Passed r = true) (SuiteResult.Results res) ∧
        Result.Test <$> SuiteResult.Results res = GetOrderedTests suites EmptyString) ∨
       (∃ l r, SuiteResult.Results res = l ++ [r] ∧
               Forall (λ r, Result.Passed r = true) l ∧
               Result.Passed r = false)))
    (RunSuite options suitePath absPath root).
Proof.
  intros Hd. unfold RunSuite. rewrite Hd. apply always_bind.
  eapply always_mono;
    [|apply runTests_always, (GetOrderedTests_valid suites EmptyString)].
  intros _ res (rs & H1 & H2 & H3 & H4 & H5 & H6 & H7 & H8). simpl in *.
  exists res. subst rs. repeat split; try done; lia.
Qed.

End RunSuiteFacts.

(** X16: [RunSuite] returns the error of the discovery without making a
    call, and otherwise a result for the suite path in which no test is
    counted as skipped, [Passed] and [Failed] count the results that
    passed and that did not, so that they add up to the number of
    results, and the tests of the results are a prefix of the ordered
    tests of the root, each of them valid. *)
Theorem RunSuite_counts `{json : EncodingJSON} `{rt : GoRuntime} {W : Type}
    (h : Call → W → W * Answer) (w : W) (options : Options)
    (suitePath absPath : string) (root : Entry) :
  let out := interp h (RunSuite options suitePath absPath root) w in
  match out.1.2 with
  | inl err => DiscoverTests absPath root = inl err ∧ out.2 = []
  | inr res =>
      ∃ suites,
        DiscoverTests absPath root = inr suites ∧
        SuiteResult.SuitePath res = suitePath ∧
        SuiteResult.Skipped res = 0 ∧
        SuiteResult.Passed res =
          Z.of_nat (length (filter (λ r, Result.Passed r = true)
                                   (SuiteResult.Results res))) ∧
        SuiteResult.Failed res =
          Z.of_nat (length (filter (λ r, Result.Passed r = false)
                                   (SuiteResult.Results res))) ∧
        SuiteResult.Passed res + SuiteResult.Failed res =
          Z.of_nat (length (SuiteResult.Results res)) ∧
        Result.Test <$> SuiteResult.Results res
          `prefix_of` collectAllTests suites ∧
        Forall (λ r, IsValid (Result.Test r) = true) (SuiteResult.Results res)
  end.
Proof.
  simpl. destruct (DiscoverTests absPath root) as [err|suites] eqn:Hd.
  { unfold RunSuite. rewrite Hd. simpl. done. }
  destruct (interp_always h _ _ w
              (RunSuite_always options suitePath absPath root suites Hd))
    as (res & -> & H1 & H2 & H3 & H4 & H5 & _).
  exists suites. repeat split; try done.
  - rewrite H3, H4. pose proof (filter_passed_failed (SuiteResult.Results res)). lia.
  - apply Forall_forall. intros r Hr.
    apply (list_elem_of_fmap_2 Result.Test) in Hr.
    eapply elem_of_prefix in Hr; [|exact H5].
    by apply run_elem in Hr as [? _].
Qed.

(** X17: without [FailFast], [RunSuite] runs every ordered test of the
    root, in order.  With [FailFast] it either runs them all and all
    pass, or it stops at the first test that does not pass: one failure
    is counted and its result is the last one. *)
Theorem RunSuite_stops_at_first_failure `{json : EncodingJSON} `{rt : GoRuntime}
    {W : Type} (h : Call → W → W * Answer) (w : W) (options : Options)
    (suitePath absPath : string) (root : Entry) (suites : Suites) :
  DiscoverTests absPath root = inr suites →
  ∃ res,
    (interp h (RunSuite options suitePath absPath root) w).1.2 = inr res ∧
    (FailFast options = false →
       Result.Test <$> SuiteResult.Results res = collectAllTests suites) ∧
    (FailFast options = true →
       (SuiteResult.Failed res = 0 ∧
        Result.Test <$> SuiteResult.Results res = collectAllTests suites) ∨
       (SuiteResult.Failed res = 1 ∧
        ∃ l r, SuiteResult.Results res = l ++ [r] ∧
               Forall (λ r, Result.Passed r = true) l ∧
               Result.Passed r = false)).
Proof.
  intros Hd.
  destruct (interp_always h _ _ w
              (RunSuite_always options suitePath absPath root suites Hd))
    as (res & Hr & _ & _ & _ & H4 & _ & H6 & H7).
  exists res. split; [done|]. split; [done|].
  intros Hf. destruct (H7 Hf) as [[Ha Hb]|(l & r & Hl & Ha & Hb)].
  - left. split; [|done]. by rewrite H4, filter_failed_nil.
  - right. split; [|by exists l, r]. rewrite H4, Hl.
    rewrite filter_app, length_app, filter_failed_nil by done.
    by rewrite (filter_cons_True _ r) by done.
Qed.

Lemma RunSuite_stops_at_first_failure_witness :
  ∃ res,
    (interp echo
       (RunSuite (json:=textJSON) (rt:=sortedRuntime) (mkOptions false true)
          "suite" "/r" scenario) 0%nat).1.2 = inr res ∧
    (FailFast (mkOptions false true) = false →
       Result.Test <$> SuiteResult.Results res =
       collectAllTests (rt:=sortedRuntime) scenarioSuites) ∧
    (FailFast (mkOptions false true) = true →
       (SuiteResult.Failed res = 0 ∧
        Result.Test <$> SuiteResult.Results res =
        collectAllTests (rt:=sortedRuntime) scenarioSuites) ∨
       (SuiteResult.Failed res = 1 ∧
        ∃ l r, SuiteResult.Results res = l ++ [r] ∧
               Forall (λ r, Result.Passed r = true) l ∧
               Result.Passed r = false)).
Proof.
  apply (RunSuite_stops_at_first_failure (json:=textJSON) (rt:=sortedRuntime)
           echo 0%nat (mkOptions false true) "suite" "/r" scenario scenarioSuites).
  apply discovered_inr. by vm_compute.
Defined.

(** * [truncate] *)

Section TruncateFacts.
Import strings strings_facts.

Lemma ReplaceAll_length s old c :
  String.length (ReplaceAll s old (String c EmptyString)) = String.length s.
Proof.
  induction s as [|d s IH]; [done|]. cbn [ReplaceAll].
  destruct (Ascii.eqb d old); rewrite ?app_cons, ?app_nil_l; simpl; by rewrite IH.
Qed.

Lemma ReplaceAll_get s old c n :
  old ≠ c →
  String.get n (ReplaceAll s old (String c EmptyString)) ≠ Some old.
Proof.
  intros Hne. revert n. induction s as [|d s IH]; intros n; [done|].
  cbn [ReplaceAll]. destruct (Ascii.eqb_spec d old) as [->|Hd];
    rewrite ?app_cons, ?app_nil_l.
  - destruct n as [|n]; simpl; [congruence|apply IH].
  - destruct n as [|n]; simpl; [congruence|apply IH].
Qed.

Lemma substring_get n m s k c :
  String.get k (substring n m s) = Some c → String.get (n + k) s = Some c.
Proof.
  revert n m k. induction s as [|d s IH]; intros n m k.
  - by destruct n, m.
  - destruct n as [|n]; simpl.
    + destruct m as [|m]; [done|]. destruct k as [|k]; simpl; [done|].
      apply (IH O m k).
    + apply IH.
Qed.

Lemma substring_length m s :
  (m ≤ String.length s)%nat → String.length (substring 0 m s) = m.
Proof.
  revert m. induction s as [|d s IH]; intros [|m] Hm; simpl in *; try done; try lia.
  rewrite IH; lia.
Qed.

Lemma get_app_cases (a b : string) n c :
  String.get n (a +:+ b) = Some c →
  String.get n a = Some c ∨ ∃ k, String.get k b = Some c.
Proof.
  revert n. induction a as [|d a IH]; intros n.
  - intros H. right. by exists n.
  - rewrite app_cons. destruct n as [|n]; [by left|]. apply IH.
Qed.

End TruncateFacts.

(** X18: [truncate] panics on a negative [maxLen], whatever the string.
    Otherwise it returns a string without a newline of at most
    [maxLen + 3] bytes: of the length of the input when that is at most
    [maxLen], and of exactly [maxLen + 3] bytes when the input is
    longer. *)
Theorem truncate_bounds (s : string) (maxLen : Z) :
  (maxLen < 0 → truncate s maxLen = None) ∧
  (0 ≤ maxLen →
     ∃ r, truncate s maxLen = Some r ∧
          (∀ n, String.get n r ≠ Some "010"%char) ∧
          (Z.of_nat (String.length s) ≤ maxLen →
             String.length r = String.length s) ∧
          (maxLen < Z.of_nat (String.length s) →
             Z.of_nat (String.length r) = maxLen + 3 ∧
             ∃ r', r = r' +:+ "...")).
Proof.
  unfold truncate. split.
  - intros Hneg. rewrite ReplaceAll_length.
    destruct (Z.leb_spec (Z.of_nat (String.length s)) maxLen); [lia|].
    destruct (Z.ltb_spec maxLen 0); [done|lia].
  - intros Hpos. rewrite ReplaceAll_length.
    destruct (Z.leb_spec (Z.of_nat (String.length s)) maxLen) as [Hle|Hgt].
    + eexists. split; [done|]. split; [|split; [|lia]].
      * intros n. by apply ReplaceAll_get.
      * intros _. apply ReplaceAll_length.
    + destruct (Z.ltb_spec maxLen 0); [lia|].
      eexists. split; [done|]. split; [|split; [lia|]].
      * intros n Hn. apply get_app_cases in Hn as [Hn|[k Hn]].
        -- apply substring_get in Hn. by apply ReplaceAll_get in Hn.
        -- by destruct k as [|[|[|k]]].
      * intros _. split; [|by eexists].
        rewrite strings_facts.length_app, substring_length; simpl.
        -- lia.
        -- rewrite ReplaceAll_length. lia.
Qed.

(** * The header flags *)

Section HeaderFacts.
Import strings strings_facts.
Variable TrimSpace : string → string.

Lemma Contains_colon_cons c s :
  Contains (String c s) ":" = Ascii.eqb c ":" || Contains s ":".
Proof. by rewrite Contains_cons, HasPrefix_single, Ascii.eqb_sym. Qed.

Lemma SplitN2_colon s :
  (Contains s ":" = false ∧ SplitN2 s ":" = [s]) ∨
  (∃ a b, s = a +:+ String ":" b ∧ Contains a ":" = false ∧
          SplitN2 s ":" = [a; b]).
Proof.
  induction s as [|c s IH]; [by left|].
  rewrite Contains_colon_cons. cbn [SplitN2].
  destruct (Ascii.eqb_spec c ":") as [->|Hc].
  { right. by exists EmptyString, s. }
  destruct IH as [[H1 H2]|(a & b & -> & H1 & H2)]; rewrite H2.
  - by left.
  - right. exists (String c a), b. rewrite app_cons. split; [done|].
    split; [|done]. rewrite Contains_colon_cons, H1.
    by destruct (Ascii.eqb_spec c ":").
Qed.

Lemma SplitN2_app a b :
  Contains a ":" = false → SplitN2 (a +:+ String ":" b) ":" = [a; b].
Proof.
  induction a as [|c a IH]; [done|]. rewrite Contains_colon_cons.
  intros [H1 H2]%orb_false_iff. rewrite app_cons. cbn [SplitN2].
  by rewrite H1, (IH H2).
Qed.

Lemma Contains_colon_app a b : Contains (a +:+ String ":" b) ":" = true.
Proof. apply Contains_spec. by exists a, b. Qed.

Lemma parseHeadersFrom_error flags : ∀ m h,
  parseHeadersFrom TrimSpace flags m = inl (InvalidHeaderFormat h) ↔
  ∃ l1 l2, flags = l1 ++ h :: l2 ∧
           Forall (λ x, Contains x ":" = true) l1 ∧ Contains h ":" = false.
Proof.
  induction flags as [|x rest IH]; intros m h.
  { split; [done|]. intros (l1 & l2 & H & _). by destruct l1. }
  cbn [parseHeadersFrom].
  destruct (SplitN2_colon x) as [[H1 H2]|(a & b & Hx & H1 & H2)]; rewrite H2.
  - split.
    + intros [= <-]. by exists [], rest.
    + intros ([|y l1] & l2 & H & Hl & Hh); simplify_eq/=; [done|].
      apply Forall_cons in Hl as [Hy _]. congruence.
  - rewrite IH. split.
    + intros (l1 & l2 & -> & Hl & Hh). exists (x :: l1), l2.
      split; [done|]. split; [|done]. constructor; [|done].
      subst x. apply Contains_colon_app.
    + intros ([|y l1] & l2 & H & Hl & Hh); simplify_eq/=.
      * by rewrite Contains_colon_app in Hh.
      * apply Forall_cons in Hl as [_ Hl]. by exists l1, l2.
Qed.

Lemma parseHeadersFrom_ok flags : ∀ m,
  (∃ m', parseHeadersFrom TrimSpace flags m = inr m') ↔
  Forall (λ x, Contains x ":" = true) flags.
Proof.
  induction flags as [|x rest IH]; intros m.
  { split; [done|]. by exists m. }
  cbn [parseHeadersFrom].
  destruct (SplitN2_colon x) as [[H1 H2]|(a & b & Hx & H1 & H2)]; rewrite H2.
  - split; [by intros [? ?]|]. intros [Hx _]%Forall_cons. congruence.
  - rewrite IH. split.
    + intros Hr. constructor; [|done]. subst x. apply Contains_colon_app.
    + by intros [_ Hr]%Forall_cons.
Qed.

Lemma keyed_unique k v a b :
  Contains a ":" = false →
  keyed TrimSpace k v (a +:+ String ":" b) → TrimSpace a = k ∧ TrimSpace b = v.
Proof.
  intros Ha (a' & b' & E & Ha' & <- & <-).
  apply (f_equal (λ s, SplitN2 s ":")) in E.
  rewrite !SplitN2_app in E by done. by simplify_eq.
Qed.

Lemma parseHeadersFrom_lookup flags : ∀ m0 m k v,
  parseHeadersFrom TrimSpace flags m0 = inr m →
  m !! k = Some v ↔
  (∃ l1 h l2, flags = l1 ++ h :: l2 ∧ keyed TrimSpace k v h ∧
              Forall (λ h', ∀ v', ¬ keyed TrimSpace k v' h') l2) ∨
  (m0 !! k = Some v ∧ Forall (λ h', ∀ v', ¬ keyed TrimSpace k v' h') flags).
Proof.
  induction flags as [|x rest IH]; intros m0 m k v.
  { intros [= <-]. split; [intros H; by right|].
    intros [(l1 & h & l2 & H & _)|[H _]]; [by destruct l1|done]. }
  cbn [parseHeadersFrom].
  destruct (SplitN2_colon x) as [[H1 H2]|(a & b & -> & H1 & H2)]; rewrite H2;
    [done|].
  intros Hm. rewrite (IH _ _ k v Hm). clear IH Hm. split.
  - intros [(l1 & h & l2 & -> & Hk & Hl)|[Hk Hl]].
    + left. by exists ((a +:+ String ":" b) :: l1), h, l2.
    + apply lookup_insert_Some in Hk as [[<- <-]|[Hne Hk]].
      * left. exists [], (a +:+ String ":" b), rest. split; [done|].
        split; [by exists a, b|done].
      * right. split; [done|]. constructor; [|done].
        intros v' Hv'. by apply keyed_unique in Hv' as [? _].
  - intros [([|y l1] & h & l2 & E & Hk & Hl)|[Hk Hl]]; simplify_eq/=.
    + right. apply keyed_unique in Hk as [<- <-]; [|done].
      by rewrite lookup_insert_eq.
    + left. by exists l1, h, l2.
    + apply Forall_cons in Hl as [Hx Hl]. right. split; [|done].
      rewrite lookup_insert_ne; [done|].
      intros E. apply (Hx (TrimSpace b)). by exists a, b.
Qed.

End HeaderFacts.

(** X19: [parseHeaders] fails exactly on the first flag without a
    colon, which the error names, and it returns headers exactly when
    every flag has a colon. *)
Theorem parseHeaders_rejects_first_flag_without_colon
    (TrimSpace : string → string) (headerFlags : list string) (h : string) :
  (parseHeaders TrimSpace headerFlags = inl (InvalidHeaderFormat h) ↔
   ∃ l1 l2, headerFlags = l1 ++ h :: l2 ∧
            Forall (λ x, strings.Contains x ":" = true) l1 ∧
            strings.Contains h ":" = false) ∧
  ((∃ headers, parseHeaders TrimSpace headerFlags = inr headers) ↔
   Forall (λ x, strings.Contains x ":" = true) headerFlags).
Proof.
  split; [apply parseHeadersFrom_error|apply parseHeadersFrom_ok].
Qed.

(** X20: in the headers [parseHeaders] returns, a key has the value of
    the last flag that reads as that key: a flag is cut at its first
    colon only, the key and the value are trimmed, and a later flag with
    the same trimmed key replaces an earlier one. *)
Theorem parseHeaders_last_flag_wins
    (TrimSpace : string → string) (headerFlags : list string)
    (headers : gmap string string) (k v : string) :
  parseHeaders TrimSpace headerFlags = inr headers →
  headers !! k = Some v ↔
  ∃ l1 h l2, headerFlags = l1 ++ h :: l2 ∧ keyed TrimSpace k v h ∧
             Forall (λ h', ∀ v', ¬ keyed TrimSpace k v' h') l2.
Proof.
  intros Hp. rewrite (parseHeadersFrom_lookup _ _ _ _ k v Hp).
  rewrite lookup_empty. split; [|by left]. by intros [H|[? _]].
Qed.

Lemma parseHeaders_last_flag_wins_witness :
  <["A" := "3"]> (<["B" := "2:x"]> (<["A" := "1"]> (∅ : gmap string string)))
    !! "B" = Some "2:x" ↔
  ∃ l1 h l2, ["A:1"; "B:2:x"; "A:3"] = l1 ++ h :: l2 ∧ keyed id "B" "2:x" h ∧
             Forall (λ h', ∀ v', ¬ keyed id "B" v' h') l2.
Proof.
  apply (parseHeaders_last_flag_wins id ["A:1"; "B:2:x"; "A:3"]).
  by vm_compute.
Defined.
